(** * sunshade_f1: solar position and illumination model of [src/App.jsx]

    A shallow embedding of the three pieces of logic of [App.jsx] that are
    not graphics plumbing:

    - [getSunPosition]   (lines 17-28): SunCalc angles to a scene vector;
    - [formatTime]       (lines 30-34): minute of the day to a clock label;
    - the sun update effect (lines 247-280): moves the sun marker and the
      directional light and sets the day/night intensities.

    Numbers.  A JavaScript number is modelled as a real number of the
    Standard Library ([R]) with [Math.sin], [Math.cos] and [Math.max] as
    [sin], [cos] and [Rmax]: IEEE-754 rounding is outside the model, so
    equalities between computed numbers are those of exact real
    arithmetic.  The update effect is embedded a second time on numbers
    that may be NaN ([JsScene.sunEffect]), for the sun position of an
    invalid date; the two embeddings agree where there is no NaN.
    [formatTime] is only ever applied to the integer value of the minute
    slider and is modelled on [Z].

    Effects.  [SunCalc.getPosition] is an imported function; it is modelled
    as a state-passing function over an abstract environment, so that what
    [getSunPosition] adds of its own can be told apart from what the
    library does.  The scene handles kept in [sceneRef.current] are mutable
    three.js objects; the effect is a function from the handles before to
    the handles after, with the early return and the failing property
    access on a missing handle written out. *)

From Stdlib Require Import Reals Lra Lia ZArith Bool List.
From Stdlib Require Import String Ascii DecimalString.
Import ListNotations.

(** ** Configuration constants (lines 8-10) *)

Definition INIT_LAT : R := 31.2304.
Definition INIT_LON : R := 121.4737.
Definition RADIUS : R := 50.

(** ** The astronomical collaborator *)

Module SunCalc.

(** The object returned by [SunCalc.getPosition]; both angles in radians. *)
Record position : Type := mkPosition
  { azimuth : R
  ; altitude : R }.

(** An imported function may consult and change state of its own: it maps
    the arguments and the environment before the call to its answer and
    the environment after the call. *)
Definition provider (Date Env : Type) : Type :=
  Date -> R -> R -> Env -> position * Env.

(** The collaborator contract of the model: the answer depends on the
    arguments only. *)
Definition deterministic {Date Env : Type} (getPosition : provider Date Env) : Prop :=
  forall date lat lon env env',
    fst (getPosition date lat lon env) = fst (getPosition date lat lon env').

End SunCalc.

(** ** getSunPosition (lines 17-28) *)

Module SunPos.

(** The object literal [{ x, y, z, altitude, azimuth }] of line 27. *)
Record t : Type := mk
  { x : R
  ; y : R
  ; z : R
  ; altitude : R
  ; azimuth : R }.

End SunPos.

Section GetSunPosition.

Context {Date Env : Type}.
Variable getPosition : SunCalc.provider Date Env.

Open Scope R_scope.

Definition getSunPosition (date : Date) (lat lon : R) (env : Env) : SunPos.t * Env :=
  let (pos, env') := getPosition date lat lon env in
  let altitude := SunCalc.altitude pos in
  let azimuth := SunCalc.azimuth pos in
  let r_flat := cos altitude * RADIUS in
  let y := sin altitude * RADIUS in
  let x := (- r_flat) * sin azimuth in
  let z := r_flat * cos azimuth in
  (SunPos.mk x y z altitude azimuth, env').

End GetSunPosition.

(** A collaborator for concrete runs: it answers with the angles it is
    handed in place of the coordinates and keeps no state. *)
Definition echoAngles : SunCalc.provider unit unit :=
  fun _ lat lon env => (SunCalc.mkPosition lon lat, env).

(** ** formatTime (lines 30-34) *)

Module Js.

(** [Number.prototype.toString] at an integer: the decimal digits, after
    a minus sign below zero. *)
Definition toString (n : Z) : string :=
  NilZero.string_of_int (Z.to_int n).

(** [String.prototype.padStart]: a string already as long as the target,
    or an empty filler, leaves the string as it is; otherwise the filler
    is repeated, cut to the missing length, and put in front. *)
Definition padStart (s : string) (targetLength : nat) (padString : string) : string :=
  if (targetLength <=? String.length s)%nat then s
  else if (String.length padString =? 0)%nat then s
  else
    let fillLen := (targetLength - String.length s)%nat in
    (substring 0 fillLen (String.concat "" (repeat padString fillLen)) ++ s)%string.

End Js.

(** On integers [Math.floor (n / 60)] is the floor quotient [Z.div] and
    [n % 60] is the remainder with the sign of [n], [Z.rem]. *)
Definition formatTime (totalMinutes : Z) : string :=
  let h := (totalMinutes / 60)%Z in
  let m := Z.rem totalMinutes 60 in
  (Js.padStart (Js.toString h) 2 "0" ++ ":" ++ Js.padStart (Js.toString m) 2 "0")%string.

(** The clock label in the words of its description: two decimal digits for
    the hour, a colon, two decimal digits for the minute.  [formatTime] is
    compared with it below. *)
Definition digitChar (d : Z) : ascii :=
  ascii_of_nat (48 + Z.to_nat d).

Definition twoDigits (n : Z) : string :=
  String (digitChar (n / 10)) (String (digitChar (n mod 10)) EmptyString).

Definition clockLabel (hh mm : Z) : string :=
  (twoDigits hh ++ ":" ++ twoDigits mm)%string.

(** ** Scene handles (lines 57-61, 172-201) *)

Module Three.

Record Vector3 : Type := mkVector3
  { vx : R
  ; vy : R
  ; vz : R }.

(** The fields of the three.js objects that the sun update effect reads
    or writes; colours are 24-bit RGB numbers as passed to [setHex]. *)
Record Mesh : Type := mkMesh
  { mesh_position : Vector3
  ; mesh_visible : bool }.

Record DirectionalLight : Type := mkDirectionalLight
  { dir_position : Vector3
  ; dir_intensity : R }.

Record HemisphereLight : Type := mkHemisphereLight
  { hemi_intensity : R
  ; hemi_color : Z
  ; hemi_groundColor : Z }.

End Three.

(** [sceneRef.current]: each handle is [null] until the set-up effect has
    stored it. *)
Record SceneRef : Type := mkSceneRef
  { sunMesh : option Three.Mesh
  ; dirLight : option Three.DirectionalLight
  ; hemiLight : option Three.HemisphereLight }.

(** How the body of an effect ends, with the handles as it leaves them:
    it returns, or a property access on [null] throws. *)
Inductive completion : Type :=
  | Returned (current : SceneRef)
  | TypeError (current : SceneRef).

Definition handlesOf (c : completion) : SceneRef :=
  match c with
  | Returned current => current
  | TypeError current => current
  end.

(** ** The sun update effect (lines 247-280) *)

Section SunEffect.

Open Scope R_scope.

Definition sunEffect (sunPos : SunPos.t) (current : SceneRef) : completion :=
  match dirLight current, sunMesh current with
  | Some dl, Some sm =>
    let p := Three.mkVector3 (SunPos.x sunPos) (SunPos.y sunPos) (SunPos.z sunPos) in
    (* 1. sunMesh.position.set *)
    let sm := Three.mkMesh p (Three.mesh_visible sm) in
    (* 2. dirLight.position.set *)
    let dl := Three.mkDirectionalLight p (Three.dir_intensity dl) in
    (* 3. day and night *)
    if Rle_dec (SunPos.altitude sunPos) 0 then
      let dl := Three.mkDirectionalLight (Three.dir_position dl) 0 in
      match hemiLight current with
      | None => TypeError (mkSceneRef (Some sm) (Some dl) None)
      | Some _ =>
        let hl := Three.mkHemisphereLight 0.05 0x111133 0x000000 in
        let sm := Three.mkMesh (Three.mesh_position sm) false in
        Returned (mkSceneRef (Some sm) (Some dl) (Some hl))
      end
    else
      let angleFactor := sin (SunPos.altitude sunPos) in
      let dl := Three.mkDirectionalLight (Three.dir_position dl)
                  (Rmax 0.5 (angleFactor * 3.0)) in
      match hemiLight current with
      | None => TypeError (mkSceneRef (Some sm) (Some dl) None)
      | Some _ =>
        let hl := Three.mkHemisphereLight (0.4 + angleFactor * 0.4) 0xffffff 0x444444 in
        let sm := Three.mkMesh (Three.mesh_position sm) true in
        Returned (mkSceneRef (Some sm) (Some dl) (Some hl))
      end
  | _, _ => Returned current
  end.

End SunEffect.

(** ** The illumination policy read off the effect (lines 259-279) *)

Record IlluminationState : Type := mkIlluminationState
  { directionalIntensity : R
  ; ambientIntensity : R
  ; ambientColor : Z
  ; ambientGroundColor : Z
  ; sunMarkerVisible : bool }.

(** The values the two branches of lines 259-279 assign, as a function of
    [sunPos.altitude]. *)
Definition deriveIllumination (altitude : R) : IlluminationState :=
  if Rle_dec altitude 0 then
    mkIlluminationState 0%R 0.05%R 0x111133 0x000000 false
  else
    let angleFactor := sin altitude in
    mkIlluminationState (Rmax 0.5 (angleFactor * 3.0)) (0.4 + angleFactor * 0.4)%R
      0xffffff 0x444444 true.

(** What a renderer sees of the lighting in the handles. *)
Definition illumination (current : SceneRef) : option IlluminationState :=
  match sunMesh current, dirLight current, hemiLight current with
  | Some sm, Some dl, Some hl =>
    Some (mkIlluminationState (Three.dir_intensity dl) (Three.hemi_intensity hl)
            (Three.hemi_color hl) (Three.hemi_groundColor hl) (Three.mesh_visible sm))
  | _, _, _ => None
  end.

(** The red, green and blue bytes of a 24-bit colour. *)
Definition red (c : Z) : Z := Z.land (Z.shiftr c 16) 0xff.
Definition green (c : Z) : Z := Z.land (Z.shiftr c 8) 0xff.
Definition blue (c : Z) : Z := Z.land c 0xff.

(** The scene vector of a sun position. *)
Definition sceneVector (p : SunPos.t) : Three.Vector3 :=
  Three.mkVector3 (SunPos.x p) (SunPos.y p) (SunPos.z p).

(** ** Compass labels (lines 204-220) *)

(** A label sprite: its text and its position [(x, 5, z)] in the scene. *)
Record Label : Type := mkLabel
  { label_text : string
  ; label_position : Three.Vector3 }.

(** [addLabel] adds one sprite to the scene; the scene is represented by
    the labels added so far, in order. *)
Definition addLabel (text : string) (x z : R) (scene : list Label) : list Label :=
  scene ++ [mkLabel text (Three.mkVector3 x 5 z)].

Definition compassLabels : list Label :=
  addLabel "W" (-45) 0
    (addLabel "E" 45 0
       (addLabel "S" 0 45
          (addLabel "N" 0 (-45) []))).

(** The label with a given text, if one was added. *)
Definition findLabel (text : string) (scene : list Label) : option Label :=
  find (fun l => String.eqb (label_text l) text) scene.

(** The sun stands over a label when the horizontal part of its scene
    vector is a positive multiple of the horizontal part of the label's
    position. *)
Definition standsOver (p : SunPos.t) (l : Label) : Prop :=
  exists k : R,
    (0 < k)%R /\
    SunPos.x p = (k * Three.vx (label_position l))%R /\
    SunPos.z p = (k * Three.vz (label_position l))%R.

(** ** The date of the computation (lines 44-50) *)

Module JsDate.

(** A [Date] object holds a time value: milliseconds since the epoch in
    UTC, or NaN ([None]) for an invalid date. *)
Definition t : Type := option Z.

Definition msPerMinute : Z := 60000.
Definition msPerHour : Z := 3600000.
Definition msPerDay : Z := 86400000.

(** [TimeClip]: a time value further than 8.64e15 ms from the epoch is not
    a date. *)
Definition TimeClip (time : Z) : t :=
  if (Z.abs time <=? 8640000000000000)%Z then Some time else None.

(** [new Date (dateStr)] at the value of a date input.  A date-only string
    YYYY-MM-DD denotes midnight UTC of that calendar day; [parsed] is the
    number of that day counted from 1970-01-01, and [None] stands for a
    string that is no date, as the empty string of a cleared input. *)
Definition ofDateString (parsed : option Z) : t :=
  match parsed with
  | Some day => TimeClip (day * msPerDay)
  | None => None
  end.

Section Zone.

(** The offset of local time from UTC in milliseconds, for a zone that
    keeps one offset. *)
Variable LocalTZA : Z.

Definition LocalTime (time : Z) : Z := (time + LocalTZA)%Z.
Definition UTC (time : Z) : Z := (time - LocalTZA)%Z.

Definition Day (time : Z) : Z := (time / msPerDay)%Z.
Definition TimeWithinDay (time : Z) : Z := (time mod msPerDay)%Z.

Definition MakeTime (hour min sec ms : Z) : Z :=
  (hour * msPerHour + min * msPerMinute + sec * 1000 + ms)%Z.

Definition MakeDate (day time : Z) : Z := (day * msPerDay + time)%Z.

(** [Date.prototype.setHours (hour, min, sec, ms)]: the local day is kept
    and the local time within it replaced. *)
Definition setHours (d : t) (hour min sec ms : Z) : t :=
  match d with
  | None => None
  | Some time =>
    TimeClip (UTC (MakeDate (Day (LocalTime time)) (MakeTime hour min sec ms)))
  end.

(** The [useMemo] of lines 44-50. *)
Definition currentDate (dateStr : option Z) (minuteOfDay : Z) : t :=
  let d := ofDateString dateStr in
  let h := (minuteOfDay / 60)%Z in
  let m := Z.rem minuteOfDay 60 in
  setHours d h m 0 0.

End Zone.

End JsDate.

(** ** The set-up effect and the life of the handles (lines 57-61, 64-244) *)

Definition initialSceneRef : SceneRef := mkSceneRef None None None.

Section Lifecycle.

(** What three.js puts into the fields of a new [Mesh] and into the
    position of a new [DirectionalLight]. *)
Variable newMesh : Three.Mesh.
Variable newLightPosition : Three.Vector3.

(** The part of the set-up effect that touches [sceneRef.current]: nothing
    when the mount point is missing (line 65), else the three stores of
    lines 175, 194 and 201. *)
Definition setupEffect (mounted : bool) (current : SceneRef) : SceneRef :=
  if negb mounted then current
  else
    let hemi := Three.mkHemisphereLight 0.6 0xffffff 0x444444 in
    let current := mkSceneRef (sunMesh current) (dirLight current) (Some hemi) in
    let dir := Three.mkDirectionalLight newLightPosition 30.0 in
    let current := mkSceneRef (sunMesh current) (Some dir) (hemiLight current) in
    mkSceneRef (Some newMesh) (dirLight current) (hemiLight current).

(** What happens to the handles: the set-up effect runs, or the sun
    position changes and the update effect runs. *)
Inductive event : Type :=
  | Setup (mounted : bool)
  | SunChanged (sunPos : SunPos.t).

(** The effects in the order of the events; a throwing effect ends the run. *)
Fixpoint runEffects (events : list event) (current : SceneRef) : completion :=
  match events with
  | [] => Returned current
  | Setup mounted :: rest => runEffects rest (setupEffect mounted current)
  | SunChanged sunPos :: rest =>
    match sunEffect sunPos current with
    | Returned current' => runEffects rest current'
    | TypeError current' => TypeError current'
    end
  end.

End Lifecycle.

(** A set of handles is whole when none or all of them are stored. *)
Definition wholeHandles (current : SceneRef) : bool :=
  match sunMesh current, dirLight current, hemiLight current with
  | None, None, None => true
  | Some _, Some _, Some _ => true
  | _, _, _ => false
  end.

(** ** One recomputation: sun position, then the update effect
       (lines 53 and 247-280) *)

Definition recompute {Date Env : Type} (getPosition : SunCalc.provider Date Env)
           (date : Date) (lat lon : R) (env : Env) (current : SceneRef) : completion * Env :=
  let (sunPos, env') := getSunPosition getPosition date lat lon env in
  (sunEffect sunPos current, env').

(** All three handles are stored. *)
Definition allStored (current : SceneRef) : Prop :=
  exists sm dl hl, current = mkSceneRef (Some sm) (Some dl) (Some hl).

(** ** The loaded model (lines 114-149) *)

Module Gltf.

(** The fields of a [MeshStandardMaterial] that the load callback reads or
    writes. *)
Record Material : Type := mkMaterial
  { envMapIntensity : R
  ; metalness : R
  ; roughness : R }.

(** Material objects live in a store and a mesh refers to one by its
    index: two meshes with the same index share one material object. *)
Definition Materials : Type := nat -> Material.

Definition update (i : nat) (f : Material -> Material) (materials : Materials) : Materials :=
  fun j => if Nat.eqb j i then f (materials j) else materials j.

(** An object of the scene graph of the model: whether it is a mesh, its
    two shadow flags, its material ([None] when it has none) and its
    children. *)
#[local] Set Warnings "-register-all".

Inductive Object3D : Type :=
  | mkObject3D (isMesh castShadow receiveShadow : bool) (material : option nat)
               (children : list Object3D).

Definition isMesh (o : Object3D) : bool :=
  match o with mkObject3D m _ _ _ _ => m end.
Definition castShadow (o : Object3D) : bool :=
  match o with mkObject3D _ c _ _ _ => c end.
Definition receiveShadow (o : Object3D) : bool :=
  match o with mkObject3D _ _ r _ _ => r end.
Definition material (o : Object3D) : option nat :=
  match o with mkObject3D _ _ _ m _ => m end.
Definition children (o : Object3D) : list Object3D :=
  match o with mkObject3D _ _ _ _ cs => cs end.

(** Lines 137-145, on the material of a mesh. *)
Definition fixMaterial (m : Material) : Material :=
  let m := mkMaterial 1.0 (metalness m) (roughness m) in
  if Rlt_dec 0.8 (metalness m) then
    let m := mkMaterial (envMapIntensity m) 0.6 (roughness m) in
    mkMaterial (envMapIntensity m) (metalness m) (Rmax (roughness m) 0.3)
  else m.

(** [model.traverse] with the callback of lines 130-147: the callback at
    the object, then the traversal of each child in order. *)
Fixpoint traverse (o : Object3D) (materials : Materials) : Object3D * Materials :=
  match o with
  | mkObject3D mesh cast receive mat cs =>
    let cast := if mesh then true else cast in
    let receive := if mesh then true else receive in
    let materials :=
      if mesh then
        match mat with
        | Some i => update i fixMaterial materials
        | None => materials
        end
      else materials in
    let traverseChildren :=
      fix traverseChildren (l : list Object3D) (materials : Materials)
        : list Object3D * Materials :=
        match l with
        | [] => ([], materials)
        | c :: rest =>
          let (c', materials) := traverse c materials in
          let (rest', materials) := traverseChildren rest materials in
          (c' :: rest', materials)
        end in
    let (cs', materials) := traverseChildren cs materials in
    (mkObject3D mesh cast receive mat cs', materials)
  end.

(** What the callback at one object does to the store. *)
Definition visitMaterials (mesh : bool) (mat : option nat) (materials : Materials) : Materials :=
  if mesh then
    match mat with
    | Some i => update i fixMaterial materials
    | None => materials
    end
  else materials.

(** The traversal of a list of children, as inside [traverse]. *)
Fixpoint traverseChildren (l : list Object3D) (materials : Materials)
  : list Object3D * Materials :=
  match l with
  | [] => ([], materials)
  | c :: rest =>
    let (c', materials) := traverse c materials in
    let (rest', materials) := traverseChildren rest materials in
    (c' :: rest', materials)
  end.

(** Some mesh of the graph refers to material [i]. *)
Fixpoint referenced (i : nat) (o : Object3D) : bool :=
  match o with
  | mkObject3D mesh _ _ mat cs =>
    (mesh && match mat with Some j => Nat.eqb i j | None => false end)
    || existsb (referenced i) cs
  end.

(** Every object of the graph satisfies [p]. *)
Fixpoint everyObject (p : Object3D -> bool) (o : Object3D) : bool :=
  p o && match o with mkObject3D _ _ _ _ cs => forallb (everyObject p) cs end.

(** The graph without the shadow flags of its meshes. *)
Fixpoint shape (o : Object3D) : Object3D :=
  match o with
  | mkObject3D mesh cast receive mat cs =>
    mkObject3D mesh (negb mesh && cast) (negb mesh && receive) mat (map shape cs)
  end.

(** A mesh casts and receives shadows. *)
Definition meshShadows (o : Object3D) : bool :=
  implb (isMesh o) (castShadow o && receiveShadow o).

End Gltf.

(** The lighting a renderer sees once the update effect has run on stored
    handles. *)
Definition lightingAfter (sunPos : SunPos.t) (sm : Three.Mesh)
           (dl : Three.DirectionalLight) (hl : Three.HemisphereLight)
  : option IlluminationState :=
  illumination (handlesOf (sunEffect sunPos (mkSceneRef (Some sm) (Some dl) (Some hl)))).

(** ** The update effect on numbers that may be NaN (lines 247-280)

    With the date input cleared, [new Date ("")] is an invalid date and
    SunCalc answers NaN for both angles, so the sun position that reaches
    the update effect has NaN in every field.  The embedding below keeps
    the real numbers and adds NaN with the behaviour JavaScript gives it:
    every comparison with NaN is false, and arithmetic, [Math.sin] and
    [Math.max] at NaN give NaN.  Infinities are left out: an altitude is an
    arcsine or NaN. *)

Module Number.

Inductive t : Type :=
  | NaN
  | Num (r : R).

Definition lift1 (f : R -> R) (a : t) : t :=
  match a with
  | Num u => Num (f u)
  | NaN => NaN
  end.

Definition lift2 (f : R -> R -> R) (a b : t) : t :=
  match a, b with
  | Num u, Num v => Num (f u v)
  | _, _ => NaN
  end.

(** [a <= b] and [a < b] as JavaScript evaluates them. *)
Definition leb (a b : t) : bool :=
  match a, b with
  | Num u, Num v => if Rle_dec u v then true else false
  | _, _ => false
  end.

Definition ltb (a b : t) : bool :=
  match a, b with
  | Num u, Num v => if Rlt_dec u v then true else false
  | _, _ => false
  end.

Definition le (a b : t) : Prop := leb a b = true.
Definition lt (a b : t) : Prop := ltb a b = true.

Definition mul : t -> t -> t := lift2 Rmult.
Definition add : t -> t -> t := lift2 Rplus.
Definition Math_sin : t -> t := lift1 sin.
Definition Math_max : t -> t -> t := lift2 Rmax.

End Number.

Module JsScene.

Record Vector3 : Type := mkVector3
  { vx : Number.t
  ; vy : Number.t
  ; vz : Number.t }.

Record Mesh : Type := mkMesh
  { mesh_position : Vector3
  ; mesh_visible : bool }.

Record DirectionalLight : Type := mkDirectionalLight
  { dir_position : Vector3
  ; dir_intensity : Number.t }.

Record HemisphereLight : Type := mkHemisphereLight
  { hemi_intensity : Number.t
  ; hemi_color : Z
  ; hemi_groundColor : Z }.

Record SceneRef : Type := mkSceneRef
  { sunMesh : option Mesh
  ; dirLight : option DirectionalLight
  ; hemiLight : option HemisphereLight }.

(** The object [sunPos]. *)
Record Sun : Type := mkSun
  { x : Number.t
  ; y : Number.t
  ; z : Number.t
  ; altitude : Number.t
  ; azimuth : Number.t }.

Inductive completion : Type :=
  | Returned (current : SceneRef)
  | TypeError (current : SceneRef).

Definition sunEffect (sunPos : Sun) (current : SceneRef) : completion :=
  match dirLight current, sunMesh current with
  | Some dl, Some sm =>
    let p := mkVector3 (x sunPos) (y sunPos) (z sunPos) in
    (* 1. sunMesh.position.set *)
    let sm := mkMesh p (mesh_visible sm) in
    (* 2. dirLight.position.set *)
    let dl := mkDirectionalLight p (dir_intensity dl) in
    (* 3. day and night *)
    if Number.leb (altitude sunPos) (Number.Num 0) then
      let dl := mkDirectionalLight (dir_position dl) (Number.Num 0) in
      match hemiLight current with
      | None => TypeError (mkSceneRef (Some sm) (Some dl) None)
      | Some _ =>
        let hl := mkHemisphereLight (Number.Num 0.05) 0x111133 0x000000 in
        let sm := mkMesh (mesh_position sm) false in
        Returned (mkSceneRef (Some sm) (Some dl) (Some hl))
      end
    else
      let angleFactor := Number.Math_sin (altitude sunPos) in
      let dl := mkDirectionalLight (dir_position dl)
                  (Number.Math_max (Number.Num 0.5)
                                   (Number.mul angleFactor (Number.Num 3.0))) in
      match hemiLight current with
      | None => TypeError (mkSceneRef (Some sm) (Some dl) None)
      | Some _ =>
        let hl := mkHemisphereLight
                    (Number.add (Number.Num 0.4) (Number.mul angleFactor (Number.Num 0.4)))
                    0xffffff 0x444444 in
        let sm := mkMesh (mesh_position sm) true in
        Returned (mkSceneRef (Some sm) (Some dl) (Some hl))
      end
  | _, _ => Returned current
  end.

End JsScene.

(** The real-number handles and sun positions among those that may hold
    NaN. *)
Definition numVector3 (v : Three.Vector3) : JsScene.Vector3 :=
  JsScene.mkVector3 (Number.Num (Three.vx v)) (Number.Num (Three.vy v))
                    (Number.Num (Three.vz v)).

Definition numSun (p : SunPos.t) : JsScene.Sun :=
  JsScene.mkSun (Number.Num (SunPos.x p)) (Number.Num (SunPos.y p))
                (Number.Num (SunPos.z p)) (Number.Num (SunPos.altitude p))
                (Number.Num (SunPos.azimuth p)).

Definition numSceneRef (current : SceneRef) : JsScene.SceneRef :=
  JsScene.mkSceneRef
    (option_map (fun sm => JsScene.mkMesh (numVector3 (Three.mesh_position sm))
                                          (Three.mesh_visible sm))
                (sunMesh current))
    (option_map (fun dl => JsScene.mkDirectionalLight (numVector3 (Three.dir_position dl))
                                                      (Number.Num (Three.dir_intensity dl)))
                (dirLight current))
    (option_map (fun hl => JsScene.mkHemisphereLight (Number.Num (Three.hemi_intensity hl))
                                                     (Three.hemi_color hl)
                                                     (Three.hemi_groundColor hl))
                (hemiLight current)).

Definition numCompletion (c : completion) : JsScene.completion :=
  match c with
  | Returned current => JsScene.Returned (numSceneRef current)
  | TypeError current => JsScene.TypeError (numSceneRef current)
  end.

(** * Properties *)

Open Scope R_scope.

(** ** Facts about the trigonometric functions used below *)

Lemma one_lt_PI : 1 < PI.
Proof. pose proof PI2_1. lra. Qed.

Lemma sin_small (a : R) : 0 < a -> a < 1 -> 0 < sin a < a.
Proof.
  intros H0 H1. split.
  - apply sin_gt_0; [assumption|]. pose proof one_lt_PI. lra.
  - now apply sin_lt_x.
Qed.

Lemma Rmax_floor (lo v : R) : lo <= Rmax lo v.
Proof. apply Rmax_l. Qed.

(** ** The two branches of the illumination policy *)

Lemma deriveIllumination_night (altitude : R) :
  altitude <= 0 ->
  deriveIllumination altitude = mkIlluminationState 0 0.05 0x111133 0x000000 false.
Proof.
  intros H. unfold deriveIllumination. destruct (Rle_dec altitude 0); [reflexivity | contradiction].
Qed.

Lemma deriveIllumination_day (altitude : R) :
  0 < altitude ->
  deriveIllumination altitude =
    mkIlluminationState (Rmax 0.5 (sin altitude * 3.0)) (0.4 + sin altitude * 0.4)
      0xffffff 0x444444 true.
Proof.
  intros H. unfold deriveIllumination. destruct (Rle_dec altitude 0); [lra | reflexivity].
Qed.

(** With the three handles stored, the effect returns and leaves in them
    exactly the values of [deriveIllumination] at [sunPos.altitude]. *)
Lemma sunEffect_illumination (sunPos : SunPos.t) (sm : Three.Mesh)
      (dl : Three.DirectionalLight) (hl : Three.HemisphereLight) :
  exists current',
    sunEffect sunPos (mkSceneRef (Some sm) (Some dl) (Some hl)) = Returned current' /\
    illumination current' = Some (deriveIllumination (SunPos.altitude sunPos)).
Proof.
  unfold sunEffect, deriveIllumination; cbn.
  destruct (Rle_dec (SunPos.altitude sunPos) 0); eexists; split; reflexivity.
Qed.

(** The effect also moves the marker and the light to the scene vector. *)
Lemma sunEffect_positions (sunPos : SunPos.t) (sm : Three.Mesh)
      (dl : Three.DirectionalLight) (hl : Three.HemisphereLight) :
  let current' := handlesOf (sunEffect sunPos (mkSceneRef (Some sm) (Some dl) (Some hl))) in
  option_map Three.mesh_position (sunMesh current') = Some (sceneVector sunPos) /\
  option_map Three.dir_position (dirLight current') = Some (sceneVector sunPos).
Proof.
  unfold sunEffect, sceneVector; cbn.
  destruct (Rle_dec (SunPos.altitude sunPos) 0); split; reflexivity.
Qed.

(** Before the handles are stored the effect leaves everything as it is. *)
Lemma sunEffect_unmounted (sunPos : SunPos.t) (current : SceneRef) :
  dirLight current = None \/ sunMesh current = None ->
  sunEffect sunPos current = Returned current.
Proof.
  unfold sunEffect. intros [H | H]; rewrite H; [reflexivity|].
  destruct (dirLight current); reflexivity.
Qed.

(** ** getSunPosition *)

(** C1. For every date, latitude and longitude (and every state of the
    collaborator), [getSunPosition] calls [SunCalc.getPosition] once and
    returns x = -(cos altitude * RADIUS) * sin azimuth,
    y = sin altitude * RADIUS, z = (cos altitude * RADIUS) * cos azimuth,
    with RADIUS = 50, together with the collaborator's altitude and azimuth
    unchanged. *)
Theorem getSunPosition_formula {Date Env : Type} (getPosition : SunCalc.provider Date Env)
        (date : Date) (lat lon : R) (env : Env) :
  let pos := fst (getPosition date lat lon env) in
  let altitude := SunCalc.altitude pos in
  let azimuth := SunCalc.azimuth pos in
  getSunPosition getPosition date lat lon env =
    (SunPos.mk (- (cos altitude * RADIUS) * sin azimuth)
               (sin altitude * RADIUS)
               ((cos altitude * RADIUS) * cos azimuth)
               altitude azimuth,
     snd (getPosition date lat lon env))
  /\ RADIUS = 50.
Proof.
  unfold getSunPosition. destruct (getPosition date lat lon env) as [pos env']. cbn.
  split; reflexivity.
Qed.

(** ** deriveIllumination *)

(** C2. The two-branch policy: at or below the horizon the directional
    intensity is 0, the ambient intensity 0.05, the ambient colour the
    night tint 0x111133 over a black ground, and the marker is hidden;
    above the horizon, with angleFactor = sin altitude, the directional
    intensity is max(0.5, angleFactor * 3.0), the ambient intensity
    0.4 + angleFactor * 0.4, the ambient colour white 0xffffff over the
    mid-gray ground 0x444444, and the marker is shown.  The night tint is a
    dark blue and differs from the day tint.  The effect writes exactly
    these values into the handles. *)
Theorem deriveIllumination_policy (altitude : R) :
  (altitude <= 0 ->
     directionalIntensity (deriveIllumination altitude) = 0 /\
     ambientIntensity (deriveIllumination altitude) = 0.05 /\
     ambientColor (deriveIllumination altitude) = 0x111133%Z /\
     ambientGroundColor (deriveIllumination altitude) = 0x000000%Z /\
     sunMarkerVisible (deriveIllumination altitude) = false) /\
  (altitude > 0 ->
     let angleFactor := sin altitude in
     directionalIntensity (deriveIllumination altitude) = Rmax 0.5 (angleFactor * 3.0) /\
     ambientIntensity (deriveIllumination altitude) = 0.4 + angleFactor * 0.4 /\
     ambientColor (deriveIllumination altitude) = 0xffffff%Z /\
     ambientGroundColor (deriveIllumination altitude) = 0x444444%Z /\
     sunMarkerVisible (deriveIllumination altitude) = true) /\
  (* the night tint: dark, blue dominant, not the day tint *)
  (0x111133 <> 0xffffff /\
   red 0x111133 = green 0x111133 /\ red 0x111133 < blue 0x111133 < 0x80)%Z /\
  (* the day tint is white, the ground tint a mid gray *)
  (red 0xffffff = 0xff /\ green 0xffffff = 0xff /\ blue 0xffffff = 0xff /\
   red 0x444444 = 0x44 /\ green 0x444444 = 0x44 /\ blue 0x444444 = 0x44)%Z /\
  (* the effect assigns these values *)
  (forall sunPos sm dl hl,
     SunPos.altitude sunPos = altitude ->
     exists current',
       sunEffect sunPos (mkSceneRef (Some sm) (Some dl) (Some hl)) = Returned current' /\
       illumination current' = Some (deriveIllumination altitude)).
Proof.
  split; [|split; [|split; [|split]]].
  - intros H. rewrite (deriveIllumination_night _ H). cbn. repeat split.
  - intros H. rewrite (deriveIllumination_day _ H). cbn. repeat split.
  - cbv. repeat split; congruence.
  - cbv. repeat split.
  - intros sunPos sm dl hl <-. apply sunEffect_illumination.
Qed.

Lemma deriveIllumination_policy_witness :
  (-1 <= 0 /\ directionalIntensity (deriveIllumination (-1)) = 0 /\
   sunMarkerVisible (deriveIllumination (-1)) = false) /\
  (PI / 6 > 0 /\ directionalIntensity (deriveIllumination (PI / 6)) = 1.5 /\
   ambientIntensity (deriveIllumination (PI / 6)) = 0.6).
Proof.
  assert (Hn : -1 <= 0) by lra.
  assert (Hd : PI / 6 > 0) by (pose proof PI_RGT_0; lra).
  split.
  - destruct (deriveIllumination_policy (-1)) as (Hnight & _).
    destruct (Hnight Hn) as (Hdir & _ & _ & _ & Hvis). auto.
  - destruct (deriveIllumination_policy (PI / 6)) as (_ & Hday & _).
    destruct (Hday Hd) as (Hdir & Hamb & _). cbv zeta in Hdir, Hamb.
    rewrite sin_PI6 in Hdir, Hamb.
    split; [exact Hd|]. split.
    + rewrite Hdir. rewrite Rmax_right; lra.
    + rewrite Hamb. lra.
Defined.

(** The directional intensity above the horizon, and its elementary bounds. *)
Lemma directionalIntensity_day (a : R) :
  0 < a -> directionalIntensity (deriveIllumination a) = Rmax 0.5 (sin a * 3.0).
Proof. intros H. now rewrite (deriveIllumination_day _ H). Qed.

Lemma ambientIntensity_day (a : R) :
  0 < a -> ambientIntensity (deriveIllumination a) = 0.4 + sin a * 0.4.
Proof. intros H. now rewrite (deriveIllumination_day _ H). Qed.

Lemma directionalIntensity_floor (a : R) :
  0 < a -> 0.5 <= directionalIntensity (deriveIllumination a).
Proof. intros H. rewrite (directionalIntensity_day _ H). apply Rmax_floor. Qed.

Lemma directionalIntensity_cap (a : R) :
  directionalIntensity (deriveIllumination a) <= 3.0.
Proof.
  destruct (Rle_dec a 0) as [H | H].
  - rewrite (deriveIllumination_night _ H). cbn. lra.
  - rewrite directionalIntensity_day by lra.
    pose proof (SIN_bound a). apply Rmax_lub; lra.
Qed.

(** The lighting after the effect on stored handles is the value of the
    policy at the altitude of the sun position. *)
Lemma lightingAfter_policy (sunPos : SunPos.t) (sm : Three.Mesh)
      (dl : Three.DirectionalLight) (hl : Three.HemisphereLight) :
  lightingAfter sunPos sm dl hl = Some (deriveIllumination (SunPos.altitude sunPos)).
Proof.
  unfold lightingAfter.
  destruct (sunEffect_illumination sunPos sm dl hl) as (current' & -> & H). exact H.
Qed.

(** X20. What the update effect writes as directional intensity on stored
    handles, for altitudes in (0, PI/2]: it does not go down when the
    altitude goes up, it lies in [0.5, 3.0] (for every altitude above 0),
    and it is 3.0 at PI/2. *)
Theorem sunEffect_directional_range :
  (forall (p1 p2 : SunPos.t) sm1 dl1 hl1 sm2 dl2 hl2,
     0 < SunPos.altitude p1 ->
     SunPos.altitude p1 <= SunPos.altitude p2 ->
     SunPos.altitude p2 <= PI / 2 ->
     exists i1 i2,
       lightingAfter p1 sm1 dl1 hl1 = Some i1 /\
       lightingAfter p2 sm2 dl2 hl2 = Some i2 /\
       directionalIntensity i1 <= directionalIntensity i2) /\
  (forall (p : SunPos.t) sm dl hl,
     0 < SunPos.altitude p ->
     exists i,
       lightingAfter p sm dl hl = Some i /\ 0.5 <= directionalIntensity i <= 3.0) /\
  (forall (p : SunPos.t) sm dl hl,
     SunPos.altitude p = PI / 2 ->
     exists i,
       lightingAfter p sm dl hl = Some i /\ directionalIntensity i = 3.0).
Proof.
  pose proof PI_RGT_0 as Hpi.
  split; [|split].
  - intros p1 p2 sm1 dl1 hl1 sm2 dl2 hl2 Ha Hab Hb.
    do 2 eexists. rewrite !lightingAfter_policy. split; [reflexivity|]. split; [reflexivity|].
    rewrite !directionalIntensity_day by lra.
    assert (sin (SunPos.altitude p1) <= sin (SunPos.altitude p2)) by (apply sin_incr_1; lra).
    apply Rle_max_compat_l. lra.
  - intros p sm dl hl Ha. eexists. rewrite lightingAfter_policy. split; [reflexivity|].
    split; [now apply directionalIntensity_floor | apply directionalIntensity_cap].
  - intros p sm dl hl Ha. eexists. rewrite lightingAfter_policy. split; [reflexivity|].
    rewrite Ha, directionalIntensity_day by lra.
    rewrite sin_PI2, Rmax_right by lra. lra.
Qed.

(** C4. The jump at the horizon, in what the update effect writes into
    stored handles: the directional intensity is 0 for every altitude at or
    below 0; on an interval (0, eps) it is exactly the day floor 0.5 and
    the marker is shown; the ambient intensity tends to 0.4 as the altitude
    decreases to 0; and the directional intensity is at least 0.5 for every
    altitude above 0. *)
Theorem sunEffect_horizon_jump :
  (forall (p : SunPos.t) sm dl hl,
     SunPos.altitude p <= 0 ->
     exists i, lightingAfter p sm dl hl = Some i /\ directionalIntensity i = 0) /\
  (exists eps : R,
     0 < eps /\
     forall (p : SunPos.t) sm dl hl,
       0 < SunPos.altitude p < eps ->
       exists i,
         lightingAfter p sm dl hl = Some i /\
         directionalIntensity i = 0.5 /\
         sunMarkerVisible i = true) /\
  (forall delta : R,
     0 < delta ->
     exists eta : R,
       0 < eta /\
       forall (p : SunPos.t) sm dl hl,
         0 < SunPos.altitude p < eta ->
         exists i,
           lightingAfter p sm dl hl = Some i /\
           Rabs (ambientIntensity i - 0.4) < delta) /\
  (forall (p : SunPos.t) sm dl hl,
     0 < SunPos.altitude p ->
     exists i, lightingAfter p sm dl hl = Some i /\ 0.5 <= directionalIntensity i).
Proof.
  split; [|split; [|split]].
  - intros p sm dl hl H. eexists. rewrite lightingAfter_policy. split; [reflexivity|].
    now rewrite (deriveIllumination_night _ H).
  - exists (1 / 6). split; [lra|]. intros p sm dl hl [H0 H1].
    eexists. rewrite lightingAfter_policy. split; [reflexivity|].
    rewrite (deriveIllumination_day _ H0). cbn.
    destruct (sin_small (SunPos.altitude p) H0) as [_ Hs]; [lra|].
    split; [|reflexivity].
    apply Rmax_left. lra.
  - intros delta Hdelta. exists (Rmin delta 1). split.
    + apply Rmin_glb_lt; lra.
    + intros p sm dl hl [H0 Hd].
      eexists. rewrite lightingAfter_policy. split; [reflexivity|].
      assert (SunPos.altitude p < delta) by (eapply Rlt_le_trans; [exact Hd | apply Rmin_l]).
      assert (SunPos.altitude p < 1) by (eapply Rlt_le_trans; [exact Hd | apply Rmin_r]).
      destruct (sin_small (SunPos.altitude p) H0) as [Hs0 Hs1]; [assumption|].
      rewrite (ambientIntensity_day _ H0).
      apply Rabs_def1; lra.
  - intros p sm dl hl H. eexists. rewrite lightingAfter_policy. split; [reflexivity|].
    now apply directionalIntensity_floor.
Qed.

Lemma sunEffect_horizon_jump_witness :
  let sm := Three.mkMesh (Three.mkVector3 0 0 0) true in
  let dl := Three.mkDirectionalLight (Three.mkVector3 0 1 0) 30.0 in
  let hl := Three.mkHemisphereLight 0.6 0xffffff 0x444444 in
  (exists i,
     lightingAfter (fst (getSunPosition echoAngles tt 0 0 tt)) sm dl hl = Some i /\
     directionalIntensity i = 0) /\
  (exists i,
     lightingAfter (fst (getSunPosition echoAngles tt 1 0 tt)) sm dl hl = Some i /\
     0.5 <= directionalIntensity i).
Proof.
  intros sm dl hl.
  destruct sunEffect_horizon_jump as (Hnight & _ & _ & Hday).
  split.
  - apply Hnight. cbn. apply Rle_refl.
  - apply Hday. cbn. lra.
Defined.

(** ** Consistency of the lighting fields *)

(** On sun positions and handles without NaN the effect on numbers that
    may be NaN is the effect on real numbers. *)
Lemma sunEffect_num (sunPos : SunPos.t) (current : SceneRef) :
  JsScene.sunEffect (numSun sunPos) (numSceneRef current) =
  numCompletion (sunEffect sunPos current).
Proof.
  destruct current as [[sm|] [dl|] [hl|]]; unfold JsScene.sunEffect, sunEffect; cbn;
    try reflexivity;
    destruct (Rle_dec (SunPos.altitude sunPos) 0); reflexivity.
Qed.

(** C9, as the code has it. When the altitude is a number (not the NaN of
    an invalid date), the update effect on stored handles shows the marker
    exactly when the directional intensity it writes is positive, and both
    exactly when the altitude is positive; for an altitude in the solar
    range (-PI/2, PI/2] the ambient intensity it writes is at least 0.05. *)
Theorem sunEffect_marker_consistency (p : SunPos.t) (sm : Three.Mesh)
        (dl : Three.DirectionalLight) (hl : Three.HemisphereLight) :
  exists i,
    lightingAfter p sm dl hl = Some i /\
    (sunMarkerVisible i = true <-> directionalIntensity i > 0) /\
    (sunMarkerVisible i = true <-> SunPos.altitude p > 0) /\
    (- (PI / 2) < SunPos.altitude p <= PI / 2 -> 0.05 <= ambientIntensity i).
Proof.
  eexists. rewrite lightingAfter_policy. split; [reflexivity|].
  set (a := SunPos.altitude p).
  destruct (Rle_dec a 0) as [H | H].
  - rewrite (deriveIllumination_night _ H). cbn.
    split; [|split].
    + split; [discriminate | lra].
    + split; [discriminate | lra].
    + intros _. lra.
  - assert (Ha : 0 < a) by lra.
    pose proof (directionalIntensity_floor a Ha) as Hfloor.
    rewrite (deriveIllumination_day _ Ha) in *. cbn in *.
    split; [|split].
    + split; [lra | reflexivity].
    + split; [lra | reflexivity].
    + intros [_ Hhi]. pose proof PI_RGT_0.
      assert (0 <= sin a) by (apply sin_ge_0; lra). lra.
Qed.

Lemma sunEffect_marker_consistency_witness :
  let sm := Three.mkMesh (Three.mkVector3 0 0 0) true in
  let dl := Three.mkDirectionalLight (Three.mkVector3 0 1 0) 30.0 in
  let hl := Three.mkHemisphereLight 0.6 0xffffff 0x444444 in
  exists i,
    lightingAfter (fst (getSunPosition echoAngles tt 1 2 tt)) sm dl hl = Some i /\
    sunMarkerVisible i = true /\
    0.05 <= ambientIntensity i.
Proof.
  intros sm dl hl.
  destruct (sunEffect_marker_consistency (fst (getSunPosition echoAngles tt 1 2 tt)) sm dl hl)
    as (i & E & _ & Hvis & Hamb).
  exists i. split; [exact E|]. split.
  - apply Hvis. cbn. lra.
  - apply Hamb. cbn. pose proof PI2_1. lra.
Defined.

(** The same holds of the effect on numbers that may be NaN, whatever the
    handles held before, as long as the altitude is a number. *)
Lemma JsScene_marker_consistency (sunPos : JsScene.Sun) (a : R)
      (sm : JsScene.Mesh) (dl : JsScene.DirectionalLight) (hl : JsScene.HemisphereLight) :
  JsScene.altitude sunPos = Number.Num a ->
  exists sm' dl' hl',
    JsScene.sunEffect sunPos (JsScene.mkSceneRef (Some sm) (Some dl) (Some hl)) =
      JsScene.Returned (JsScene.mkSceneRef (Some sm') (Some dl') (Some hl')) /\
    (JsScene.mesh_visible sm' = true <->
     Number.lt (Number.Num 0) (JsScene.dir_intensity dl')) /\
    (JsScene.mesh_visible sm' = true <-> 0 < a) /\
    (- (PI / 2) < a <= PI / 2 ->
     Number.le (Number.Num 0.05) (JsScene.hemi_intensity hl')).
Proof.
  intros Halt. unfold JsScene.sunEffect. cbn [JsScene.dirLight JsScene.sunMesh JsScene.hemiLight].
  rewrite Halt. unfold Number.leb.
  destruct (Rle_dec a 0) as [Hneg | Hpos]; do 3 eexists; (split; [reflexivity|]);
    cbn; unfold Number.lt, Number.le, Number.ltb, Number.leb.
  - split; [|split].
    + destruct (Rlt_dec 0 0); [lra | split; discriminate].
    + split; [discriminate | lra].
    + intros _. destruct (Rle_dec 0.05 0.05); [reflexivity | lra].
  - assert (Ha : 0 < a) by lra.
    pose proof (Rmax_floor 0.5 (sin a * 3.0)) as Hfloor.
    split; [|split].
    + destruct (Rlt_dec 0 (Rmax 0.5 (sin a * 3.0))); [split; reflexivity | lra].
    + split; [intros _; exact Ha | reflexivity].
    + intros [_ Hhi]. pose proof PI_RGT_0.
      assert (0 <= sin a) by (apply sin_ge_0; lra).
      destruct (Rle_dec 0.05 (0.4 + sin a * 0.4)); [reflexivity | lra].
Qed.

(** C9 fails as stated at the sun position of an invalid date, all of
    whose fields are NaN, in the effect on numbers that may be NaN (which
    is [sunEffect] wherever there is no NaN, [sunEffect_num]): [NaN <= 0]
    is false, so the day branch runs; the marker is shown, both
    intensities are NaN, the directional intensity is not above 0 and the
    ambient intensity is not at least 0.05. *)
Lemma marker_shown_with_NaN_lighting :
  let sunPos := JsScene.mkSun Number.NaN Number.NaN Number.NaN Number.NaN Number.NaN in
  let sm := JsScene.mkMesh (JsScene.mkVector3 (Number.Num 0) (Number.Num 0) (Number.Num 0)) true in
  let dl := JsScene.mkDirectionalLight
              (JsScene.mkVector3 (Number.Num 0) (Number.Num 1) (Number.Num 0)) (Number.Num 30.0) in
  let hl := JsScene.mkHemisphereLight (Number.Num 0.6) 0xffffff 0x444444 in
  exists sm' dl' hl',
    JsScene.sunEffect sunPos (JsScene.mkSceneRef (Some sm) (Some dl) (Some hl)) =
      JsScene.Returned (JsScene.mkSceneRef (Some sm') (Some dl') (Some hl')) /\
    JsScene.mesh_visible sm' = true /\
    JsScene.dir_intensity dl' = Number.NaN /\
    JsScene.hemi_intensity hl' = Number.NaN /\
    ~ (JsScene.mesh_visible sm' = true <->
       Number.lt (Number.Num 0) (JsScene.dir_intensity dl')) /\
    ~ Number.le (Number.Num 0.05) (JsScene.hemi_intensity hl').
Proof.
  cbn. do 3 eexists. split; [reflexivity|]. cbn.
  repeat split.
  - intros [H _]. specialize (H eq_refl). discriminate H.
  - discriminate.
Qed.

(** ** The scene vector *)

Lemma sin2_cos2_pow (a : R) : sin a * sin a + cos a * cos a = 1.
Proof. exact (sin2_cos2 a). Qed.

Section SceneVector.

Context {Date Env : Type}.
Variable getPosition : SunCalc.provider Date Env.

(** The fields of the result in terms of the angles it carries. *)
Lemma getSunPosition_fields (date : Date) (lat lon : R) (env : Env) :
  let p := fst (getSunPosition getPosition date lat lon env) in
  SunPos.x p = - (cos (SunPos.altitude p) * RADIUS) * sin (SunPos.azimuth p) /\
  SunPos.y p = sin (SunPos.altitude p) * RADIUS /\
  SunPos.z p = (cos (SunPos.altitude p) * RADIUS) * cos (SunPos.azimuth p).
Proof.
  unfold getSunPosition. destruct (getPosition date lat lon env) as [pos env']. cbn.
  repeat split.
Qed.

(** C6, as the code has it. For every altitude and azimuth the scene
    vector lies on the sphere of radius RADIUS around the origin; y is
    non-negative for an altitude in [0, PI], so on [0, PI/2], and
    negative for an altitude in (-PI, 0), so on (-PI/2, 0). *)
Theorem sceneVector_on_sphere (date : Date) (lat lon : R) (env : Env) :
  let p := fst (getSunPosition getPosition date lat lon env) in
  SunPos.x p * SunPos.x p + SunPos.y p * SunPos.y p + SunPos.z p * SunPos.z p
    = RADIUS * RADIUS /\
  (0 <= SunPos.altitude p <= PI -> 0 <= SunPos.y p) /\
  (- PI < SunPos.altitude p < 0 -> SunPos.y p < 0) /\
  (- (PI / 2) < SunPos.altitude p <= PI / 2 -> (0 <= SunPos.y p <-> 0 <= SunPos.altitude p)).
Proof.
  intros p. destruct (getSunPosition_fields date lat lon env) as (Hx & Hy & Hz).
  fold p in Hx, Hy, Hz. rewrite Hx, Hy, Hz.
  set (a := SunPos.altitude p). set (az := SunPos.azimuth p).
  pose proof PI_RGT_0 as Hpi.
  split; [|split; [|split]]; cycle 3.
  - intros [H0 H1]. unfold RADIUS. split; intros H.
    + destruct (Rle_dec 0 a) as [|Hneg]; [assumption|].
      assert (sin a < 0) by (apply sin_lt_0_var; lra). lra.
    + assert (0 <= sin a) by (apply sin_ge_0; lra). lra.
  - transitivity (RADIUS * RADIUS *
                  (cos a * cos a * (sin az * sin az + cos az * cos az) + sin a * sin a)).
    + ring.
    + rewrite sin2_cos2_pow.
      replace (cos a * cos a * 1 + sin a * sin a) with (sin a * sin a + cos a * cos a) by ring.
      rewrite sin2_cos2_pow. ring.
  - intros [H0 H1]. pose proof (sin_ge_0 a H0 H1). unfold RADIUS. lra.
  - intros [H0 H1]. pose proof (sin_lt_0_var a H0 H1). unfold RADIUS. lra.
Qed.

(** C7. The boundary values: at altitude PI/2 the vector is
    (0, RADIUS, 0) for every azimuth; at altitude 0 and azimuth 0 it is
    (0, 0, RADIUS); at altitude 0 and azimuth PI/2 it is (-RADIUS, 0, 0). *)
Theorem sceneVector_boundary_values (date : Date) (lat lon : R) (env : Env) :
  let p := fst (getSunPosition getPosition date lat lon env) in
  (SunPos.altitude p = PI / 2 ->
     SunPos.x p = 0 /\ SunPos.y p = RADIUS /\ SunPos.z p = 0) /\
  (SunPos.altitude p = 0 -> SunPos.azimuth p = 0 ->
     SunPos.x p = 0 /\ SunPos.y p = 0 /\ SunPos.z p = RADIUS) /\
  (SunPos.altitude p = 0 -> SunPos.azimuth p = PI / 2 ->
     SunPos.x p = - RADIUS /\ SunPos.y p = 0 /\ SunPos.z p = 0).
Proof.
  intros p. destruct (getSunPosition_fields date lat lon env) as (Hx & Hy & Hz).
  fold p in Hx, Hy, Hz. rewrite Hx, Hy, Hz.
  split; [|split].
  - intros ->. rewrite cos_PI2, sin_PI2. repeat split; ring.
  - intros -> ->. rewrite cos_0, sin_0. repeat split; ring.
  - intros -> ->. rewrite cos_0, sin_0, cos_PI2, sin_PI2. repeat split; ring.
Qed.

End SceneVector.

(** C6 fails as stated below the horizon: at altitude -PI/6, inside
    (-PI/2, PI/2], the vector has y = -25. *)
Lemma sceneVector_below_ground :
  let p := fst (getSunPosition echoAngles tt (- (PI / 6)) 0 tt) in
  - (PI / 2) < SunPos.altitude p <= PI / 2 /\
  SunPos.y p = -25 /\
  ~ (SunPos.y p >= 0).
Proof.
  cbn. rewrite sin_neg, sin_PI6. unfold RADIUS.
  pose proof PI_RGT_0. repeat split; lra.
Qed.

Lemma sceneVector_on_sphere_witness :
  let p := fst (getSunPosition echoAngles tt 1 2 tt) in
  SunPos.x p * SunPos.x p + SunPos.y p * SunPos.y p + SunPos.z p * SunPos.z p
    = RADIUS * RADIUS /\
  0 <= SunPos.y p.
Proof.
  destruct (sceneVector_on_sphere echoAngles tt 1 2 tt) as (Hs & Hup & _ & _).
  split; [exact Hs|]. apply Hup. cbn. pose proof one_lt_PI. lra.
Defined.

Lemma sceneVector_boundary_values_witness :
  sceneVector (fst (getSunPosition echoAngles tt (PI / 2) 3 tt)) = Three.mkVector3 0 RADIUS 0 /\
  sceneVector (fst (getSunPosition echoAngles tt 0 0 tt)) = Three.mkVector3 0 0 RADIUS /\
  sceneVector (fst (getSunPosition echoAngles tt 0 (PI / 2) tt)) = Three.mkVector3 (- RADIUS) 0 0.
Proof.
  split; [|split]; unfold sceneVector.
  - destruct (sceneVector_boundary_values echoAngles tt (PI / 2) 3 tt) as (H & _ & _).
    destruct (H eq_refl) as (-> & -> & ->). reflexivity.
  - destruct (sceneVector_boundary_values echoAngles tt 0 0 tt) as (_ & H & _).
    destruct (H eq_refl eq_refl) as (-> & -> & ->). reflexivity.
  - destruct (sceneVector_boundary_values echoAngles tt 0 (PI / 2) tt) as (_ & _ & H).
    destruct (H eq_refl eq_refl) as (-> & -> & ->). reflexivity.
Defined.

(** ** Determinism and absence of hidden state *)

Lemma echoAngles_deterministic : SunCalc.deterministic echoAngles.
Proof. intros date lat lon env env'. reflexivity. Qed.

(** Running the effect again on the handles it left changes nothing. *)
Lemma sunEffect_idempotent (sunPos : SunPos.t) (current : SceneRef) :
  sunEffect sunPos (handlesOf (sunEffect sunPos current)) = sunEffect sunPos current.
Proof.
  destruct current as [[sm|] [dl|] [hl|]]; unfold sunEffect; cbn;
    try reflexivity;
    destruct (Rle_dec (SunPos.altitude sunPos) 0); cbn;
    destruct (Rle_dec (SunPos.altitude sunPos) 0); try contradiction; reflexivity.
Qed.

(** C8. With a deterministic collaborator, the result of [getSunPosition]
    does not depend on the state it is called in, so two calls in a row
    with the same date, latitude and longitude return the same object, and
    [getSunPosition] changes no state but through the collaborator.  The
    lighting the effect leaves in the handles is a function of the altitude
    alone, whatever the handles held before, and running the effect again
    with the same sun position changes nothing. *)
Theorem deterministic_and_stateless {Date Env : Type}
        (getPosition : SunCalc.provider Date Env) :
  SunCalc.deterministic getPosition ->
  (forall date lat lon env env',
     fst (getSunPosition getPosition date lat lon env) =
     fst (getSunPosition getPosition date lat lon env')) /\
  (forall date lat lon env,
     let first := getSunPosition getPosition date lat lon env in
     let second := getSunPosition getPosition date lat lon (snd first) in
     fst first = fst second) /\
  (forall date lat lon env,
     snd (getSunPosition getPosition date lat lon env) = snd (getPosition date lat lon env)) /\
  (forall sunPos sunPos' sm dl hl sm' dl' hl',
     SunPos.altitude sunPos = SunPos.altitude sunPos' ->
     illumination (handlesOf (sunEffect sunPos (mkSceneRef (Some sm) (Some dl) (Some hl)))) =
     illumination (handlesOf (sunEffect sunPos' (mkSceneRef (Some sm') (Some dl') (Some hl'))))) /\
  (forall sunPos sm dl hl,
     illumination (handlesOf (sunEffect sunPos (mkSceneRef (Some sm) (Some dl) (Some hl)))) =
     Some (deriveIllumination (SunPos.altitude sunPos))) /\
  (forall sunPos current,
     sunEffect sunPos (handlesOf (sunEffect sunPos current)) = sunEffect sunPos current).
Proof.
  intros Hdet.
  assert (Hillum : forall sunPos sm dl hl,
            illumination (handlesOf (sunEffect sunPos (mkSceneRef (Some sm) (Some dl) (Some hl)))) =
            Some (deriveIllumination (SunPos.altitude sunPos))).
  { intros sunPos sm dl hl.
    destruct (sunEffect_illumination sunPos sm dl hl) as (current' & -> & H). exact H. }
  assert (Hstate : forall date lat lon env env',
            fst (getSunPosition getPosition date lat lon env) =
            fst (getSunPosition getPosition date lat lon env')).
  { intros date lat lon env env'. unfold getSunPosition.
    pose proof (Hdet date lat lon env env') as H.
    destruct (getPosition date lat lon env) as [pos e1].
    destruct (getPosition date lat lon env') as [pos' e2].
    cbn in *. now subst pos'. }
  repeat split.
  - exact Hstate.
  - intros date lat lon env first second. apply Hstate.
  - intros date lat lon env. unfold getSunPosition.
    now destruct (getPosition date lat lon env).
  - intros sunPos sunPos' sm dl hl sm' dl' hl' Halt.
    now rewrite !Hillum, Halt.
  - exact Hillum.
  - apply sunEffect_idempotent.
Qed.

Lemma deterministic_and_stateless_witness :
  SunCalc.deterministic echoAngles /\
  fst (getSunPosition echoAngles tt 1 2 tt) =
  fst (getSunPosition echoAngles tt 1 2 (snd (getSunPosition echoAngles tt 1 2 tt))).
Proof.
  split; [exact echoAngles_deterministic|].
  destruct (deterministic_and_stateless echoAngles echoAngles_deterministic) as (_ & H & _).
  exact (H tt 1 2 tt).
Defined.

(** The hypothesis on the collaborator is needed: a collaborator that
    counts its calls makes two calls in a row differ. *)
Remark counting_collaborator_differs :
  let counting : SunCalc.provider unit R :=
    fun _ _ _ calls => (SunCalc.mkPosition 0 calls, calls + 1) in
  let first := getSunPosition counting tt 0 0 0 in
  let second := getSunPosition counting tt 0 0 (snd first) in
  ~ SunCalc.deterministic counting /\ fst first <> fst second.
Proof.
  cbn. split.
  - intros H. specialize (H tt 0 0 0 1). cbn in H. injection H as H. lra.
  - intros H. injection H as _ _ _ H. lra.
Qed.

(** ** formatTime *)

Open Scope Z_scope.

Example formatTime_midnight : formatTime 0 = "00:00"%string.
Proof. reflexivity. Qed.

Example formatTime_initial : formatTime (14 * 60) = "14:00"%string.
Proof. reflexivity. Qed.

Example formatTime_last : formatTime 1439 = "23:59"%string.
Proof. reflexivity. Qed.

(** Outside the range of the slider the label is not of the form HH:MM. *)
Example formatTime_past_range : formatTime 6000 = "100:00"%string.
Proof. reflexivity. Qed.

Example formatTime_negative : formatTime (-1) = "-1:-1"%string.
Proof. reflexivity. Qed.

(** Below one hundred, padding the decimal form to two places gives the
    two decimal digits; checked on each of the hundred numbers. *)
Lemma padStart_twoDigits_check :
  forallb (fun k => String.eqb (Js.padStart (Js.toString (Z.of_nat k)) 2 "0")
                               (twoDigits (Z.of_nat k)))
          (seq 0 100) = true.
Proof. vm_compute. reflexivity. Qed.

Lemma padStart_twoDigits (n : Z) :
  0 <= n < 100 -> Js.padStart (Js.toString n) 2 "0" = twoDigits n.
Proof.
  intros Hn.
  pose proof padStart_twoDigits_check as Hall.
  rewrite forallb_forall in Hall.
  specialize (Hall (Z.to_nat n)).
  rewrite Z2Nat.id in Hall by lia.
  apply String.eqb_eq, Hall, in_seq. lia.
Qed.

Lemma twoDigits_length (n : Z) : String.length (twoDigits n) = 2%nat.
Proof. reflexivity. Qed.

(** C10. For an integer number of minutes from 0 to 1439, [formatTime]
    returns the five characters HH:MM, HH the two decimal digits of
    floor(totalMinutes / 60), between 00 and 23, and MM the two decimal
    digits of totalMinutes mod 60, between 00 and 59. *)
Theorem formatTime_clockLabel (totalMinutes : Z) :
  0 <= totalMinutes <= 1439 ->
  let hh := totalMinutes / 60 in
  let mm := totalMinutes mod 60 in
  formatTime totalMinutes = clockLabel hh mm /\
  formatTime totalMinutes =
    String (digitChar (hh / 10)) (String (digitChar (hh mod 10))
      (String ":" (String (digitChar (mm / 10)) (String (digitChar (mm mod 10)) EmptyString)))) /\
  String.length (formatTime totalMinutes) = 5%nat /\
  0 <= hh <= 23 /\ 0 <= mm <= 59.
Proof.
  intros Ht hh mm.
  assert (Hh : 0 <= hh <= 23).
  { subst hh. split; [apply Z.div_pos; lia|].
    apply Z.lt_succ_r. apply Z.div_lt_upper_bound; lia. }
  assert (Hm : 0 <= mm <= 59).
  { subst mm. pose proof (Z.mod_pos_bound totalMinutes 60). lia. }
  assert (E : formatTime totalMinutes = clockLabel hh mm).
  { unfold formatTime, clockLabel.
    rewrite Z.rem_mod_nonneg by lia. fold hh mm.
    rewrite !padStart_twoDigits by lia. reflexivity. }
  repeat split; try lia.
  - exact E.
  - rewrite E. reflexivity.
  - rewrite E. reflexivity.
Qed.

Lemma formatTime_clockLabel_witness :
  0 <= 845 <= 1439 /\ formatTime 845 = "14:05"%string.
Proof.
  assert (H : 0 <= 845 <= 1439) by lia.
  split; [exact H|].
  destruct (formatTime_clockLabel 845 H) as (_ & E & _). exact E.
Defined.

(** * Further properties of the code *)

Close Scope Z_scope.

(** ** The sun vector and the compass *)

Section Compass.

Context {Date Env : Type}.
Variable getPosition : SunCalc.provider Date Env.

(** X1. The sun due south, west, north and east of the observer stands over
    the label S, W, N and E: SunCalc's azimuth 0 is south and PI/2 west
    (lines 14-15), so north is PI and east -PI/2; this holds at every
    altitude strictly between -PI/2 and PI/2. *)
Theorem sun_stands_over_compass_label (date : Date) (lat lon : R) (env : Env) :
  let p := fst (getSunPosition getPosition date lat lon env) in
  - (PI / 2) < SunPos.altitude p < PI / 2 ->
  forall (text : string) (bearing : R),
    In (text, bearing) [("S"%string, 0); ("W"%string, PI / 2);
                        ("N"%string, PI); ("E"%string, - (PI / 2))] ->
    SunPos.azimuth p = bearing ->
    exists l, findLabel text compassLabels = Some l /\ standsOver p l.
Proof.
  intros p Halt text bearing Hin Haz.
  destruct (getSunPosition_fields getPosition date lat lon env) as (Hx & _ & Hz).
  fold p in Hx, Hz. rewrite Haz in Hx, Hz.
  assert (Hc : 0 < cos (SunPos.altitude p)) by (apply cos_gt_0; lra).
  set (c := cos (SunPos.altitude p)) in *.
  assert (Hk : 0 < c * RADIUS / 45) by (unfold RADIUS; lra).
  cbn in Hin.
  destruct Hin as [E | [E | [E | [E | []]]]]; injection E as <- <-;
    eexists; (split; [reflexivity|]); exists (c * RADIUS / 45);
    (split; [exact Hk|]); cbn; rewrite Hx, Hz.
  - rewrite sin_0, cos_0. split; field.
  - rewrite sin_PI2, cos_PI2. split; field.
  - rewrite sin_PI, cos_PI. split; field.
  - rewrite sin_neg, cos_neg, sin_PI2, cos_PI2. split; field.
Qed.

(** X2. Which side of the scene the sun is on: above or below the horizon with
    the altitude strictly between -PI/2 and PI/2, a sun in the western
    half of the sky (azimuth in (0, PI)) has x < 0, on the side of the W
    label, one in the eastern half (azimuth in (-PI, 0)) has x > 0; an
    azimuth within PI/2 of south gives z > 0, the side of the S label. *)
Theorem sun_side_of_scene (date : Date) (lat lon : R) (env : Env) :
  let p := fst (getSunPosition getPosition date lat lon env) in
  - (PI / 2) < SunPos.altitude p < PI / 2 ->
  (0 < SunPos.azimuth p < PI -> SunPos.x p < 0) /\
  (- PI < SunPos.azimuth p < 0 -> 0 < SunPos.x p) /\
  (- (PI / 2) < SunPos.azimuth p < PI / 2 -> 0 < SunPos.z p) /\
  (PI / 2 < SunPos.azimuth p < 3 * (PI / 2) -> SunPos.z p < 0).
Proof.
  intros p Halt.
  destruct (getSunPosition_fields getPosition date lat lon env) as (Hx & _ & Hz).
  fold p in Hx, Hz. rewrite Hx, Hz.
  assert (Hc : 0 < cos (SunPos.altitude p)) by (apply cos_gt_0; lra).
  set (c := cos (SunPos.altitude p)) in *. set (az := SunPos.azimuth p).
  unfold RADIUS.
  repeat split.
  - intros [H0 H1]. pose proof (sin_gt_0 az H0 H1). nra.
  - intros [H0 H1]. pose proof (sin_lt_0_var az H0 H1). nra.
  - intros [H0 H1]. pose proof (cos_gt_0 az H0 H1). nra.
  - intros [H0 H1]. pose proof (cos_lt_0 az H0 H1). nra.
Qed.

(** X3. Each coordinate of the scene vector is at most RADIUS in absolute
    value, and the horizontal distance from the origin is RADIUS times the
    absolute cosine of the altitude. *)
Theorem sceneVector_bounds (date : Date) (lat lon : R) (env : Env) :
  let p := fst (getSunPosition getPosition date lat lon env) in
  Rabs (SunPos.x p) <= RADIUS /\ Rabs (SunPos.y p) <= RADIUS /\ Rabs (SunPos.z p) <= RADIUS /\
  sqrt (SunPos.x p * SunPos.x p + SunPos.z p * SunPos.z p) =
    RADIUS * Rabs (cos (SunPos.altitude p)).
Proof.
  intros p.
  destruct (getSunPosition_fields getPosition date lat lon env) as (Hx & Hy & Hz).
  fold p in Hx, Hy, Hz. rewrite Hx, Hy, Hz.
  set (a := SunPos.altitude p). set (az := SunPos.azimuth p).
  pose proof (SIN_bound a) as Hsa. pose proof (COS_bound a) as Hca.
  pose proof (SIN_bound az) as Hsz. pose proof (COS_bound az) as Hcz.
  pose proof (sin2_cos2_pow az) as Hz2.
  unfold RADIUS.
  assert (Hprod : forall u v, -1 <= u <= 1 -> -1 <= v <= 1 -> -1 <= u * v <= 1).
  { intros u v Hu Hv. split; nra. }
  destruct (Hprod _ _ Hca Hsz) as [P1 P2]. destruct (Hprod _ _ Hca Hcz) as [P3 P4].
  repeat split.
  - apply Rabs_le. split; nra.
  - apply Rabs_le. split; nra.
  - apply Rabs_le. split; nra.
  - replace (- (cos a * 50) * sin az * (- (cos a * 50) * sin az) +
             cos a * 50 * cos az * (cos a * 50 * cos az))
      with ((50 * cos a) * (50 * cos a) * (sin az * sin az + cos az * cos az)) by ring.
    rewrite Hz2, Rmult_1_r. fold (Rsqr (50 * cos a)). rewrite sqrt_Rsqr_abs.
    rewrite Rabs_mult. rewrite (Rabs_pos_eq 50) by lra. reflexivity.
Qed.

End Compass.

(** X4. Opposite azimuths at one altitude give scene vectors that mirror each
    other in the north-south plane (x changes sign, y and z stay), and
    azimuths a full turn apart give the same scene vector. *)
Theorem sceneVector_azimuth_symmetry {Date Env : Type}
        (getPosition : SunCalc.provider Date Env)
        (date1 date2 : Date) (lat1 lon1 lat2 lon2 : R) (env1 env2 : Env) :
  let p1 := fst (getSunPosition getPosition date1 lat1 lon1 env1) in
  let p2 := fst (getSunPosition getPosition date2 lat2 lon2 env2) in
  SunPos.altitude p2 = SunPos.altitude p1 ->
  (SunPos.azimuth p2 = - SunPos.azimuth p1 ->
     SunPos.x p2 = - SunPos.x p1 /\ SunPos.y p2 = SunPos.y p1 /\ SunPos.z p2 = SunPos.z p1) /\
  (SunPos.azimuth p2 = SunPos.azimuth p1 + 2 * PI ->
     sceneVector p2 = sceneVector p1).
Proof.
  intros p1 p2 Ha.
  destruct (getSunPosition_fields getPosition date1 lat1 lon1 env1) as (Hx1 & Hy1 & Hz1).
  destruct (getSunPosition_fields getPosition date2 lat2 lon2 env2) as (Hx2 & Hy2 & Hz2).
  fold p1 in Hx1, Hy1, Hz1. fold p2 in Hx2, Hy2, Hz2.
  split; intros Hz; unfold sceneVector; rewrite Hx2, Hy2, Hz2, Hx1, Hy1, Hz1, Ha, Hz.
  - rewrite sin_neg, cos_neg. repeat split; ring.
  - rewrite sin_plus, cos_plus, sin_2PI, cos_2PI. f_equal; ring.
Qed.

Lemma sceneVector_azimuth_symmetry_witness :
  let p1 := fst (getSunPosition echoAngles tt 1 2 tt) in
  let p2 := fst (getSunPosition echoAngles tt 1 (-2) tt) in
  SunPos.x p2 = - SunPos.x p1 /\ SunPos.y p2 = SunPos.y p1 /\ SunPos.z p2 = SunPos.z p1.
Proof.
  destruct (sceneVector_azimuth_symmetry echoAngles tt tt 1 2 1 (-2) tt tt eq_refl) as [H _].
  apply H. reflexivity.
Defined.

Lemma sun_stands_over_compass_label_witness :
  exists l, findLabel "W" compassLabels = Some l /\
            standsOver (fst (getSunPosition echoAngles tt 1 (PI / 2) tt)) l.
Proof.
  apply (sun_stands_over_compass_label echoAngles tt 1 (PI / 2) tt) with (bearing := PI / 2).
  - cbn. pose proof PI2_1. lra.
  - right. left. reflexivity.
  - reflexivity.
Defined.

Lemma sun_side_of_scene_witness :
  SunPos.x (fst (getSunPosition echoAngles tt 1 1 tt)) < 0 /\
  0 < SunPos.z (fst (getSunPosition echoAngles tt 1 1 tt)).
Proof.
  pose proof PI2_1 as Hpi.
  assert (Halt : - (PI / 2) < 1 < PI / 2) by lra.
  destruct (sun_side_of_scene echoAngles tt 1 1 tt Halt) as (Hw & _ & Hs & _).
  split; [apply Hw | apply Hs]; cbn; lra.
Defined.

(** ** formatTime beyond its claim *)

Open Scope Z_scope.

Lemma formatTime_slider (t : Z) :
  0 <= t <= 1439 -> formatTime t = clockLabel (t / 60) (t mod 60).
Proof.
  intros Ht. unfold formatTime, clockLabel.
  assert (0 <= t / 60 <= 23).
  { split; [apply Z.div_pos; lia|]. apply Z.lt_succ_r, Z.div_lt_upper_bound; lia. }
  pose proof (Z.mod_pos_bound t 60).
  rewrite Z.rem_mod_nonneg by lia.
  rewrite !padStart_twoDigits by lia. reflexivity.
Qed.

Lemma digitChar_inj (a b : Z) :
  0 <= a <= 9 -> 0 <= b <= 9 -> digitChar a = digitChar b -> a = b.
Proof.
  intros Ha Hb E. unfold digitChar in E.
  apply (f_equal nat_of_ascii) in E.
  rewrite !nat_ascii_embedding in E by lia. lia.
Qed.

Lemma twoDigits_inj (n m : Z) :
  0 <= n < 100 -> 0 <= m < 100 -> twoDigits n = twoDigits m -> n = m.
Proof.
  intros Hn Hm E. unfold twoDigits in E. injection E as E1 E0.
  pose proof (Z.mod_pos_bound n 10). pose proof (Z.mod_pos_bound m 10).
  apply digitChar_inj in E1; [| split; [apply Z.div_pos; lia | apply Z.lt_succ_r, Z.div_lt_upper_bound; lia] ..].
  apply digitChar_inj in E0; [| lia ..].
  rewrite (Z.div_mod n 10), (Z.div_mod m 10) by lia. lia.
Qed.

(** X5. Two positions of the minute slider never show the same label. *)
Theorem formatTime_injective (t1 t2 : Z) :
  0 <= t1 <= 1439 -> 0 <= t2 <= 1439 ->
  t1 <> t2 -> formatTime t1 <> formatTime t2.
Proof.
  intros H1 H2 Hne E. apply Hne. clear Hne.
  rewrite !formatTime_slider in E by assumption.
  unfold clockLabel, twoDigits in E. cbn [append] in E.
  injection E as Eh1 Eh0 Em1 Em0.
  assert (Hh : twoDigits (t1 / 60) = twoDigits (t2 / 60)) by (unfold twoDigits; congruence).
  assert (Hm : twoDigits (t1 mod 60) = twoDigits (t2 mod 60)) by (unfold twoDigits; congruence).
  pose proof (Z.mod_pos_bound t1 60). pose proof (Z.mod_pos_bound t2 60).
  apply twoDigits_inj in Hm; [| lia ..].
  apply twoDigits_inj in Hh;
    [| split; [apply Z.div_pos; lia | apply Z.div_lt_upper_bound; lia] ..].
  rewrite (Z.div_mod t1 60), (Z.div_mod t2 60) by lia. lia.
Qed.

Lemma formatTime_injective_witness :
  formatTime 61 <> formatTime 601.
Proof.
  apply (formatTime_injective 61 601); lia.
Defined.

Lemma string_of_uint_nonempty (d : Decimal.uint) :
  exists c rest, NilZero.string_of_uint d = String c rest.
Proof.
  destruct d; cbn; eauto.
Qed.

(** X6. Below zero the label is no clock time: it starts with a minus sign,
    because the hour [Math.floor (t / 60)] is negative and [padStart] does
    not touch a string of two or more characters. *)
Theorem formatTime_negative_sign (t : Z) :
  t < 0 -> exists rest, formatTime t = String "-" rest.
Proof.
  intros Ht. unfold formatTime.
  assert (Hh : t / 60 < 0) by (apply Z.div_lt_upper_bound; lia).
  destruct (t / 60) as [|p|p] eqn:E; try lia.
  unfold Js.toString at 1. cbn [Z.to_int NilZero.string_of_int].
  destruct (string_of_uint_nonempty (Pos.to_uint p)) as (c & rest & ->).
  unfold Js.padStart at 1. cbn [String.length Nat.leb].
  cbn [append]. eauto.
Qed.

Lemma formatTime_negative_sign_witness :
  exists rest, formatTime (-61) = String "-" rest.
Proof.
  apply (formatTime_negative_sign (-61)). lia.
Defined.

Close Scope Z_scope.

(** ** The date of the computation *)

Section CurrentDate.

Open Scope Z_scope.

Import JsDate.

Lemma hour_minute_ms (minuteOfDay : Z) :
  0 <= minuteOfDay ->
  MakeTime (minuteOfDay / 60) (Z.rem minuteOfDay 60) 0 0 = minuteOfDay * msPerMinute.
Proof.
  intros H. unfold MakeTime, msPerHour, msPerMinute.
  rewrite Z.rem_mod_nonneg by lia.
  pose proof (Z.div_mod minuteOfDay 60). lia.
Qed.

Lemma currentDate_some (LocalTZA day minuteOfDay time : Z) :
  0 <= minuteOfDay ->
  currentDate LocalTZA (Some day) minuteOfDay = Some time ->
  time = (day + LocalTZA / msPerDay) * msPerDay + minuteOfDay * msPerMinute - LocalTZA.
Proof.
  intros Hm. unfold currentDate, ofDateString, TimeClip.
  destruct (Z.abs (day * msPerDay) <=? 8640000000000000); [|discriminate].
  unfold setHours. rewrite hour_minute_ms by assumption.
  unfold LocalTime, Day, MakeDate, UTC, TimeClip.
  rewrite Z.div_add_l by (unfold msPerDay; lia).
  destruct (Z.abs _ <=? 8640000000000000); [|discriminate].
  intros E. injection E as <-. reflexivity.
Qed.

Lemma currentDate_valid (LocalTZA day minuteOfDay : Z) :
  - msPerDay <= LocalTZA < msPerDay ->
  - 100000000 < day < 100000000 ->
  0 <= minuteOfDay <= 1439 ->
  exists time, currentDate LocalTZA (Some day) minuteOfDay = Some time.
Proof.
  intros Hz Hd Hm. unfold currentDate, ofDateString, TimeClip.
  unfold msPerDay, msPerMinute in *.
  destruct (Z.leb_spec (Z.abs (day * 86400000)) 8640000000000000) as [_ | Hbad]; [|lia].
  unfold setHours. rewrite hour_minute_ms by lia.
  unfold LocalTime, Day, MakeDate, UTC, TimeClip, msPerDay, msPerMinute.
  rewrite Z.div_add_l by lia.
  assert (-1 <= LocalTZA / 86400000 <= 0).
  { split; [apply Z.div_le_lower_bound; lia | apply Z.lt_succ_r, Z.div_lt_upper_bound; lia]. }
  assert (LocalTZA / 86400000 = 0 -> 0 <= LocalTZA).
  { intros E. destruct (Z.lt_ge_cases LocalTZA 0) as [Hneg |]; [|assumption].
    assert (LocalTZA / 86400000 < 0) by (apply Z.div_lt_upper_bound; lia). lia. }
  assert (LocalTZA / 86400000 = -1 -> LocalTZA < 0).
  { intros E. destruct (Z.lt_ge_cases LocalTZA 0) as [| Hpos]; [assumption|].
    assert (0 <= LocalTZA / 86400000) by (apply Z.div_pos; lia). lia. }
  destruct (Z.leb_spec
              (Z.abs ((day + LocalTZA / 86400000) * 86400000 + minuteOfDay * 60000 - LocalTZA))
              8640000000000000) as [_ | Hbad]; [eauto | lia].
Qed.

(** X7. In a zone at or east of Greenwich, whenever the date of the
    computation is a valid date it is, in local time, the chosen calendar
    day at the chosen minute of the day; and it is a valid date for every
    chosen day less than 100000000 days from the epoch. *)
Theorem currentDate_east (LocalTZA day minuteOfDay : Z) :
  0 <= LocalTZA < msPerDay ->
  0 <= minuteOfDay <= 1439 ->
  (forall time,
     currentDate LocalTZA (Some day) minuteOfDay = Some time ->
     Day (LocalTime LocalTZA time) = day /\
     TimeWithinDay (LocalTime LocalTZA time) = minuteOfDay * msPerMinute) /\
  (- 100000000 < day < 100000000 ->
   exists time, currentDate LocalTZA (Some day) minuteOfDay = Some time).
Proof.
  intros Hz Hm. split.
  - intros time E. apply currentDate_some in E; [|lia]. subst time.
    unfold LocalTime, Day, TimeWithinDay, msPerDay, msPerMinute in *.
    rewrite (Z.div_small LocalTZA) by lia.
    replace ((day + 0) * 86400000 + minuteOfDay * 60000 - LocalTZA + LocalTZA)
      with (minuteOfDay * 60000 + day * 86400000) by ring.
    rewrite Z.div_add, Z.mod_add by lia.
    rewrite Z.div_small, Z.mod_small by lia. lia.
  - intros Hd. apply currentDate_valid; unfold msPerDay in *; lia.
Qed.

(** X8. In a zone west of Greenwich, whenever the date of the computation
    is a valid date it is, in local time, the calendar day before the
    chosen one, at the chosen minute of the day: the date string is read
    as midnight UTC, which is the evening before in local time, and
    [setHours] keeps that local day.  It is a valid date for every chosen
    day less than 100000000 days from the epoch. *)
Theorem currentDate_west (LocalTZA day minuteOfDay : Z) :
  - msPerDay <= LocalTZA < 0 ->
  0 <= minuteOfDay <= 1439 ->
  (forall time,
     currentDate LocalTZA (Some day) minuteOfDay = Some time ->
     Day (LocalTime LocalTZA time) = day - 1 /\
     TimeWithinDay (LocalTime LocalTZA time) = minuteOfDay * msPerMinute) /\
  (- 100000000 < day < 100000000 ->
   exists time, currentDate LocalTZA (Some day) minuteOfDay = Some time).
Proof.
  intros Hz Hm. split.
  - intros time E. apply currentDate_some in E; [|lia]. subst time.
    unfold LocalTime, Day, TimeWithinDay, msPerDay, msPerMinute in *.
    assert (E : LocalTZA / 86400000 = -1).
    { symmetry. apply (Z.div_unique LocalTZA 86400000 (-1) (LocalTZA + 86400000)); lia. }
    rewrite E.
    replace ((day + -1) * 86400000 + minuteOfDay * 60000 - LocalTZA + LocalTZA)
      with (minuteOfDay * 60000 + (day - 1) * 86400000) by ring.
    rewrite Z.div_add, Z.mod_add by lia.
    rewrite Z.div_small, Z.mod_small by lia. lia.
  - intros Hd. apply currentDate_valid; unfold msPerDay in *; lia.
Qed.

(** Shanghai, UTC+8, 2024-06-21 (day 19895), 14:00. *)
Lemma currentDate_east_witness :
  exists time,
    currentDate (8 * msPerHour) (Some 19895) 840 = Some time /\
    Day (LocalTime (8 * msPerHour) time) = 19895 /\
    TimeWithinDay (LocalTime (8 * msPerHour) time) = 840 * msPerMinute.
Proof.
  assert (Hz : 0 <= 8 * msPerHour < msPerDay) by (unfold msPerHour, msPerDay; lia).
  assert (Hm : 0 <= 840 <= 1439) by lia.
  destruct (currentDate_east (8 * msPerHour) 19895 840 Hz Hm) as [Hlocal Hvalid].
  destruct Hvalid as [time E]; [lia|].
  exists time. split; [exact E | exact (Hlocal time E)].
Defined.

(** A zone five hours west of Greenwich, the same day and minute. *)
Lemma currentDate_west_witness :
  exists time,
    currentDate (-5 * msPerHour) (Some 19895) 840 = Some time /\
    Day (LocalTime (-5 * msPerHour) time) = 19895 - 1 /\
    TimeWithinDay (LocalTime (-5 * msPerHour) time) = 840 * msPerMinute.
Proof.
  assert (Hz : - msPerDay <= -5 * msPerHour < 0) by (unfold msPerHour, msPerDay; lia).
  assert (Hm : 0 <= 840 <= 1439) by lia.
  destruct (currentDate_west (-5 * msPerHour) 19895 840 Hz Hm) as [Hlocal Hvalid].
  destruct Hvalid as [time E]; [lia|].
  exists time. split; [exact E | exact (Hlocal time E)].
Defined.

(** At the last day a date can denote, day 100000000, the date of the
    computation can be invalid: eight hours east of Greenwich at 14:00 it
    lies past the last instant of a date. *)
Example currentDate_last_day :
  ofDateString (Some 100000000) <> None /\
  currentDate (8 * msPerHour) (Some 100000000) 840 = None.
Proof. split; [discriminate | reflexivity]. Qed.

End CurrentDate.

(** ** The handles over the life of the component *)

(** X9. The update effect throws exactly when the light and the marker are
    stored and the hemisphere light is not. *)
Theorem sunEffect_throws_iff (sunPos : SunPos.t) (current : SceneRef) :
  (exists current', sunEffect sunPos current = TypeError current') <->
  (dirLight current <> None /\ sunMesh current <> None /\ hemiLight current = None).
Proof.
  destruct current as [[sm|] [dl|] [hl|]]; unfold sunEffect; cbn;
    try destruct (Rle_dec (SunPos.altitude sunPos) 0);
    (split;
     [ intros [c H]; try discriminate H; repeat split; congruence
     | intros (H1 & H2 & H3); try congruence; eauto ]).
Qed.

Lemma sunEffect_stored (sunPos : SunPos.t) (sm : Three.Mesh)
      (dl : Three.DirectionalLight) (hl : Three.HemisphereLight) :
  exists sm' dl' hl',
    sunEffect sunPos (mkSceneRef (Some sm) (Some dl) (Some hl)) =
      Returned (mkSceneRef (Some sm') (Some dl') (Some hl')) /\
    illumination (mkSceneRef (Some sm') (Some dl') (Some hl')) =
      Some (deriveIllumination (SunPos.altitude sunPos)) /\
    Three.mesh_position sm' = sceneVector sunPos /\
    Three.dir_position dl' = sceneVector sunPos.
Proof.
  unfold sunEffect, deriveIllumination, sceneVector; cbn.
  destruct (Rle_dec (SunPos.altitude sunPos) 0);
    do 3 eexists; repeat split; reflexivity.
Qed.

Section LifecycleFacts.

Variable newMesh : Three.Mesh.
Variable newLightPosition : Three.Vector3.

Lemma setupEffect_whole (mounted : bool) (current : SceneRef) :
  wholeHandles current = true -> wholeHandles (setupEffect newMesh newLightPosition mounted current) = true.
Proof.
  destruct mounted; cbn; [reflexivity | trivial].
Qed.

Lemma sunEffect_whole (sunPos : SunPos.t) (current : SceneRef) :
  wholeHandles current = true ->
  exists current', sunEffect sunPos current = Returned current' /\
                   wholeHandles current' = true.
Proof.
  destruct current as [[sm|] [dl|] [hl|]]; unfold wholeHandles;
    cbn [sunMesh dirLight hemiLight]; try discriminate; intros _.
  - destruct (sunEffect_stored sunPos sm dl hl) as (sm' & dl' & hl' & -> & _).
    eexists; split; reflexivity.
  - eexists; split; reflexivity.
Qed.

Lemma runEffects_whole (events : list event) :
  forall current,
    wholeHandles current = true ->
    exists current', runEffects newMesh newLightPosition events current = Returned current' /\
                     wholeHandles current' = true.
Proof.
  induction events as [| [mounted | sunPos] rest IH]; intros current Hwhole; cbn.
  - eauto.
  - apply IH. now apply setupEffect_whole.
  - destruct (sunEffect_whole sunPos current Hwhole) as (current' & -> & Hwhole').
    now apply IH.
Qed.

(** X10. Whatever the order in which the set-up effect and the update effect
    run from the initial handles, no effect throws, and the handles are
    always stored all together or not at all. *)
Theorem runEffects_never_throws (events : list event) :
  exists current,
    runEffects newMesh newLightPosition events initialSceneRef = Returned current /\
    wholeHandles current = true.
Proof.
  apply runEffects_whole. reflexivity.
Qed.

Lemma runEffects_app (events1 events2 : list event) :
  forall current,
    runEffects newMesh newLightPosition (events1 ++ events2) current =
    match runEffects newMesh newLightPosition events1 current with
    | Returned current' => runEffects newMesh newLightPosition events2 current'
    | TypeError current' => TypeError current'
    end.
Proof.
  induction events1 as [| [mounted | sunPos] rest IH]; intros current; cbn.
  - reflexivity.
  - apply IH.
  - destruct (sunEffect sunPos current); [apply IH | reflexivity].
Qed.

Lemma runEffects_allStored (events : list event) :
  forall current,
    allStored current ->
    exists current', runEffects newMesh newLightPosition events current = Returned current' /\ allStored current'.
Proof.
  induction events as [| [mounted | sunPos] rest IH]; intros current Hall; cbn.
  - eauto.
  - apply IH. destruct Hall as (sm & dl & hl & ->).
    destruct mounted; cbn; do 3 eexists; reflexivity.
  - destruct Hall as (sm & dl & hl & ->).
    destruct (sunEffect_stored sunPos sm dl hl) as (sm' & dl' & hl' & -> & _).
    apply IH. do 3 eexists; reflexivity.
Qed.

Lemma runEffects_mounted (events : list event) :
  forall current,
    In (Setup true) events ->
    wholeHandles current = true ->
    exists current', runEffects newMesh newLightPosition events current = Returned current' /\ allStored current'.
Proof.
  induction events as [| e rest IH]; intros current Hin Hwhole; [contradiction|].
  destruct Hin as [-> | Hin].
  - cbn. apply runEffects_allStored. do 3 eexists; reflexivity.
  - destruct e as [mounted | sunPos]; cbn.
    + apply IH; [assumption | now apply setupEffect_whole].
    + destruct (sunEffect_whole sunPos current Hwhole) as (current' & -> & Hwhole').
      now apply IH.
Qed.

(** X11. Once the set-up effect has stored the handles, the lighting and the
    positions after an update are those of the last sun position alone,
    whatever happened before: the intensities of the set-up (30.0 and 0.6)
    and of earlier updates leave no trace. *)
Theorem runEffects_last_update (events : list event) (sunPos : SunPos.t) :
  In (Setup true) events ->
  exists sm dl hl,
    runEffects newMesh newLightPosition (events ++ [SunChanged sunPos]) initialSceneRef =
      Returned (mkSceneRef (Some sm) (Some dl) (Some hl)) /\
    illumination (mkSceneRef (Some sm) (Some dl) (Some hl)) =
      Some (deriveIllumination (SunPos.altitude sunPos)) /\
    Three.mesh_position sm = sceneVector sunPos /\
    Three.dir_position dl = sceneVector sunPos.
Proof.
  intros Hin. rewrite runEffects_app.
  destruct (runEffects_mounted events initialSceneRef Hin eq_refl)
    as (current & -> & sm & dl & hl & ->).
  cbn [runEffects].
  destruct (sunEffect_stored sunPos sm dl hl) as (sm' & dl' & hl' & -> & Hill & Hm & Hd).
  exists sm', dl', hl'. repeat split; assumption.
Qed.

(** X12. As long as the set-up effect has not found its mount point, updates
    leave the handles empty. *)
Theorem runEffects_unmounted (events : list event) :
  ~ In (Setup true) events ->
  runEffects newMesh newLightPosition events initialSceneRef = Returned initialSceneRef.
Proof.
  induction events as [| [[|] | sunPos] rest IH]; intros Hnot; cbn.
  - reflexivity.
  - exfalso. apply Hnot. now left.
  - apply IH. intros H. apply Hnot. now right.
  - apply IH. intros H. apply Hnot. now right.
Qed.

End LifecycleFacts.

Lemma runEffects_last_update_witness :
  let newMesh := Three.mkMesh (Three.mkVector3 0 0 0) true in
  let sunPos := fst (getSunPosition echoAngles tt 1 2 tt) in
  exists sm dl hl,
    runEffects newMesh (Three.mkVector3 0 1 0) ([Setup true] ++ [SunChanged sunPos])
               initialSceneRef =
      Returned (mkSceneRef (Some sm) (Some dl) (Some hl)) /\
    illumination (mkSceneRef (Some sm) (Some dl) (Some hl)) =
      Some (deriveIllumination (SunPos.altitude sunPos)) /\
    Three.mesh_position sm = sceneVector sunPos /\
    Three.dir_position dl = sceneVector sunPos.
Proof.
  intros newMesh sunPos.
  apply (runEffects_last_update newMesh (Three.mkVector3 0 1 0) [Setup true] sunPos).
  left. reflexivity.
Defined.

Lemma runEffects_unmounted_witness :
  let newMesh := Three.mkMesh (Three.mkVector3 0 0 0) true in
  let sunPos := fst (getSunPosition echoAngles tt 1 2 tt) in
  runEffects newMesh (Three.mkVector3 0 1 0) [Setup false; SunChanged sunPos] initialSceneRef =
    Returned initialSceneRef.
Proof.
  intros newMesh sunPos.
  apply (runEffects_unmounted newMesh (Three.mkVector3 0 1 0)).
  intros [H | [H | []]]; discriminate H.
Defined.

(** ** One recomputation *)

Lemma sphere_identity (a az : R) :
  - (cos a * RADIUS) * sin az * (- (cos a * RADIUS) * sin az) +
  sin a * RADIUS * (sin a * RADIUS) +
  cos a * RADIUS * cos az * (cos a * RADIUS * cos az) = RADIUS * RADIUS.
Proof.
  transitivity (RADIUS * RADIUS *
                (cos a * cos a * (sin az * sin az + cos az * cos az) + sin a * sin a)).
  - ring.
  - rewrite sin2_cos2_pow.
    replace (cos a * cos a * 1 + sin a * sin a) with (sin a * sin a + cos a * cos a) by ring.
    rewrite sin2_cos2_pow. ring.
Qed.

Section Recompute.

Context {Date Env : Type}.
Variable getPosition : SunCalc.provider Date Env.

Lemma recompute_stored (date : Date) (lat lon : R) (env : Env)
      (sm : Three.Mesh) (dl : Three.DirectionalLight) (hl : Three.HemisphereLight) :
  let p := fst (getSunPosition getPosition date lat lon env) in
  exists sm' dl' hl',
    fst (recompute getPosition date lat lon env (mkSceneRef (Some sm) (Some dl) (Some hl))) =
      Returned (mkSceneRef (Some sm') (Some dl') (Some hl')) /\
    illumination (mkSceneRef (Some sm') (Some dl') (Some hl')) =
      Some (deriveIllumination (SunPos.altitude p)) /\
    Three.mesh_position sm' = sceneVector p /\
    Three.dir_position dl' = sceneVector p.
Proof.
  intros p. unfold recompute. subst p.
  destruct (getSunPosition getPosition date lat lon env) as [sunPos env']. cbn [fst].
  apply sunEffect_stored.
Qed.

(** X13. For every answer of the collaborator that consists of numbers
    (not NaN), after a recomputation on stored handles the light and the
    marker are at the same point, which is not the origin, where the
    target of the light is; in exact real arithmetic its distance from the
    origin is RADIUS. *)
Theorem recompute_light_off_target (date : Date) (lat lon : R) (env : Env)
        (sm : Three.Mesh) (dl : Three.DirectionalLight) (hl : Three.HemisphereLight) :
  exists sm' dl' hl',
    fst (recompute getPosition date lat lon env (mkSceneRef (Some sm) (Some dl) (Some hl))) =
      Returned (mkSceneRef (Some sm') (Some dl') (Some hl')) /\
    Three.dir_position dl' = Three.mesh_position sm' /\
    sqrt (Three.vx (Three.dir_position dl') * Three.vx (Three.dir_position dl') +
          Three.vy (Three.dir_position dl') * Three.vy (Three.dir_position dl') +
          Three.vz (Three.dir_position dl') * Three.vz (Three.dir_position dl')) = RADIUS /\
    Three.dir_position dl' <> Three.mkVector3 0 0 0.
Proof.
  destruct (recompute_stored date lat lon env sm dl hl) as (sm' & dl' & hl' & E & _ & Hm & Hd).
  exists sm', dl', hl'. split; [exact E|]. split; [congruence|].
  destruct (getSunPosition_fields getPosition date lat lon env) as (Hx & Hy & Hz).
  rewrite Hd. unfold sceneVector. cbn [Three.vx Three.vy Three.vz].
  assert (Hsphere :
            SunPos.x (fst (getSunPosition getPosition date lat lon env)) *
            SunPos.x (fst (getSunPosition getPosition date lat lon env)) +
            SunPos.y (fst (getSunPosition getPosition date lat lon env)) *
            SunPos.y (fst (getSunPosition getPosition date lat lon env)) +
            SunPos.z (fst (getSunPosition getPosition date lat lon env)) *
            SunPos.z (fst (getSunPosition getPosition date lat lon env)) = RADIUS * RADIUS).
  { rewrite Hx, Hy, Hz. apply sphere_identity. }
  split.
  - rewrite Hsphere. apply sqrt_square. unfold RADIUS. lra.
  - intros E0. injection E0 as Ex Ey Ez. rewrite Ex, Ey, Ez in Hsphere.
    unfold RADIUS in Hsphere. lra.
Qed.

(** X14. For an altitude between -PI and PI, which covers every solar altitude,
    a recomputation on stored handles leaves the marker shown exactly when
    it is above the ground plane y = 0, and the directional light on
    exactly when it is above the ground plane. *)
Theorem recompute_lit_iff_above_ground (date : Date) (lat lon : R) (env : Env)
        (sm : Three.Mesh) (dl : Three.DirectionalLight) (hl : Three.HemisphereLight) :
  - PI < SunCalc.altitude (fst (getPosition date lat lon env)) < PI ->
  exists sm' dl' hl',
    fst (recompute getPosition date lat lon env (mkSceneRef (Some sm) (Some dl) (Some hl))) =
      Returned (mkSceneRef (Some sm') (Some dl') (Some hl')) /\
    (Three.mesh_visible sm' = true <-> 0 < Three.vy (Three.mesh_position sm')) /\
    (0 < Three.dir_intensity dl' <-> 0 < Three.vy (Three.dir_position dl')).
Proof.
  intros Halt.
  destruct (recompute_stored date lat lon env sm dl hl)
    as (sm' & dl' & hl' & E & Hill & Hm & Hd).
  exists sm', dl', hl'. split; [exact E|].
  destruct (getSunPosition_fields getPosition date lat lon env) as (_ & Hy & _).
  assert (Ea : SunPos.altitude (fst (getSunPosition getPosition date lat lon env)) =
               SunCalc.altitude (fst (getPosition date lat lon env))).
  { unfold getSunPosition. destruct (getPosition date lat lon env). reflexivity. }
  rewrite Hm, Hd. unfold sceneVector. cbn [Three.vy]. rewrite Hy.
  unfold illumination in Hill. cbn [sunMesh dirLight hemiLight] in Hill.
  injection Hill as Hill.
  rewrite Ea in *.
  set (a := SunCalc.altitude (fst (getPosition date lat lon env))) in *.
  assert (Hvis : Three.mesh_visible sm' = sunMarkerVisible (deriveIllumination a))
    by (rewrite <- Hill; reflexivity).
  assert (Hdir : Three.dir_intensity dl' = directionalIntensity (deriveIllumination a))
    by (rewrite <- Hill; reflexivity).
  rewrite Hvis, Hdir. unfold RADIUS.
  destruct (Rle_dec a 0) as [Hneg | Hpos].
  - rewrite (deriveIllumination_night _ Hneg). cbn.
    assert (sin a <= 0).
    { destruct (Req_dec a 0) as [-> | Hne]; [rewrite sin_0; lra|].
      apply Rlt_le, sin_lt_0_var; lra. }
    split; split; intros H0; try discriminate; lra.
  - assert (Ha : 0 < a) by lra.
    pose proof (directionalIntensity_floor a Ha) as Hfloor.
    rewrite (deriveIllumination_day _ Ha) in *. cbn in *.
    assert (0 < sin a) by (apply sin_gt_0; lra).
    split; split; intros H0; try reflexivity; lra.
Qed.

End Recompute.

Lemma recompute_lit_iff_above_ground_witness :
  let sm := Three.mkMesh (Three.mkVector3 0 0 0) true in
  let dl := Three.mkDirectionalLight (Three.mkVector3 0 1 0) 30.0 in
  let hl := Three.mkHemisphereLight 0.6 0xffffff 0x444444 in
  exists sm' dl' hl',
    fst (recompute echoAngles tt (-1) 2 tt (mkSceneRef (Some sm) (Some dl) (Some hl))) =
      Returned (mkSceneRef (Some sm') (Some dl') (Some hl')) /\
    (Three.mesh_visible sm' = true <-> 0 < Three.vy (Three.mesh_position sm')) /\
    (0 < Three.dir_intensity dl' <-> 0 < Three.vy (Three.dir_position dl')).
Proof.
  intros sm dl hl.
  apply (recompute_lit_iff_above_ground echoAngles tt (-1) 2 tt sm dl hl).
  cbn. pose proof one_lt_PI. lra.
Defined.

(** ** The loaded model *)

Section LoadedModel.

Import Gltf.

Lemma Object3D_tree_ind (P : Object3D -> Prop) :
  (forall mesh cast receive mat cs,
     Forall P cs -> P (mkObject3D mesh cast receive mat cs)) ->
  forall o, P o.
Proof.
  intros H. fix IH 1. intros [mesh cast receive mat cs]. apply H.
  induction cs as [| c cs IHcs]; constructor; [apply IH | exact IHcs].
Qed.

Lemma traverse_node (mesh cast receive : bool) (mat : option nat)
      (cs : list Object3D) (materials : Materials) :
  traverse (mkObject3D mesh cast receive mat cs) materials =
    (mkObject3D mesh (if mesh then true else cast) (if mesh then true else receive) mat
       (fst (traverseChildren cs (visitMaterials mesh mat materials))),
     snd (traverseChildren cs (visitMaterials mesh mat materials))).
Proof.
  cbn [traverse]. fold (visitMaterials mesh mat materials).
  generalize (visitMaterials mesh mat materials) as ms.
  intros ms.
  match goal with
  | |- (let (_, _) := ?F cs ms in _) = _ =>
    assert (E : forall l m, F l m = traverseChildren l m)
  end.
  { induction l as [| c l IHl]; intros m; cbn; [reflexivity|].
    destruct (traverse c m) as [c' m']. rewrite IHl. reflexivity. }
  rewrite E. destruct (traverseChildren cs ms). reflexivity.
Qed.

Lemma fixMaterial_idempotent (m : Material) :
  fixMaterial (fixMaterial m) = fixMaterial m.
Proof.
  unfold fixMaterial. cbn.
  destruct (Rlt_dec 0.8 (metalness m)) as [H | H]; cbn.
  - destruct (Rlt_dec 0.8 0.6) as [H' | H']; [lra | reflexivity].
  - destruct (Rlt_dec 0.8 (metalness m)); [contradiction | reflexivity].
Qed.

Lemma fixMaterial_fields (m : Material) :
  envMapIntensity (fixMaterial m) = 1 /\
  metalness (fixMaterial m) <= 0.8 /\
  roughness m <= roughness (fixMaterial m) /\
  (0.8 < metalness m ->
     metalness (fixMaterial m) = 0.6 /\ 0.3 <= roughness (fixMaterial m)) /\
  (metalness m <= 0.8 ->
     metalness (fixMaterial m) = metalness m /\ roughness (fixMaterial m) = roughness m).
Proof.
  unfold fixMaterial. cbn.
  destruct (Rlt_dec 0.8 (metalness m)) as [H | H]; cbn.
  - repeat split; try lra.
    + apply Rmax_l.
    + apply Rmax_r.
  - repeat split; lra.
Qed.

Lemma visitMaterials_at (mesh : bool) (mat : option nat) (materials : Materials) (i : nat) :
  visitMaterials mesh mat materials i =
    if mesh && match mat with Some j => Nat.eqb i j | None => false end
    then fixMaterial (materials i) else materials i.
Proof.
  unfold visitMaterials, update. destruct mesh, mat; reflexivity.
Qed.

Lemma traverseChildren_materials (i : nat) (cs : list Object3D) :
  Forall (fun c => forall materials,
            snd (traverse c materials) i =
              if referenced i c then fixMaterial (materials i) else materials i) cs ->
  forall materials,
    snd (traverseChildren cs materials) i =
      if existsb (referenced i) cs then fixMaterial (materials i) else materials i.
Proof.
  induction 1 as [| c cs Hc _ IH]; intros materials; cbn [traverseChildren existsb].
  - reflexivity.
  - specialize (Hc materials).
    destruct (traverse c materials) as [c' m1]. cbn [snd] in Hc.
    specialize (IH m1).
    destruct (traverseChildren cs m1) as [cs' m2]. cbn [snd] in *.
    rewrite IH, Hc.
    destruct (referenced i c), (existsb (referenced i) cs); cbn;
      rewrite ?fixMaterial_idempotent; reflexivity.
Qed.

Lemma traverse_materials_at (i : nat) (o : Object3D) :
  forall materials,
    snd (traverse o materials) i =
      if referenced i o then fixMaterial (materials i) else materials i.
Proof.
  induction o as [mesh cast receive mat cs IH] using Object3D_tree_ind.
  intros materials. rewrite traverse_node. cbn [snd referenced].
  rewrite (traverseChildren_materials i cs IH), visitMaterials_at.
  destruct (mesh && match mat with Some j => Nat.eqb i j | None => false end),
           (existsb (referenced i) cs); cbn;
    rewrite ?fixMaterial_idempotent; reflexivity.
Qed.

(** X15. After the traversal every material that some mesh of the model refers
    to is the fixed form of what it was, once, however many meshes share
    it; every other material is as it was. *)
Theorem traverse_materials (o : Object3D) (materials : Materials) (i : nat) :
  snd (traverse o materials) i =
    if referenced i o then fixMaterial (materials i) else materials i.
Proof. apply traverse_materials_at. Qed.

(** X16. After the traversal no material of a mesh of the model is more
    metallic than 0.8 and each has environment intensity 1; its roughness
    has not gone down, and where the metalness was above 0.8 it is now 0.6
    with a roughness of at least 0.3; a material at or below 0.8 keeps its
    metalness and roughness. *)
Theorem traverse_metalness_capped (o : Object3D) (materials : Materials) (i : nat) :
  referenced i o = true ->
  let m := materials i in
  let m' := snd (traverse o materials) i in
  envMapIntensity m' = 1 /\
  metalness m' <= 0.8 /\
  roughness m <= roughness m' /\
  (0.8 < metalness m -> metalness m' = 0.6 /\ 0.3 <= roughness m') /\
  (metalness m <= 0.8 -> metalness m' = metalness m /\ roughness m' = roughness m).
Proof.
  intros Href m m'. subst m'. rewrite traverse_materials_at, Href.
  apply fixMaterial_fields.
Qed.

Lemma traverseChildren_graph (cs : list Object3D) :
  Forall (fun c => forall materials,
            everyObject meshShadows (fst (traverse c materials)) = true /\
            shape (fst (traverse c materials)) = shape c) cs ->
  forall materials,
    forallb (everyObject meshShadows) (fst (traverseChildren cs materials)) = true /\
    map shape (fst (traverseChildren cs materials)) = map shape cs.
Proof.
  induction 1 as [| c cs Hc _ IH]; intros materials; cbn [traverseChildren].
  - split; reflexivity.
  - specialize (Hc materials).
    destruct (traverse c materials) as [c' m1]. cbn [fst] in Hc.
    specialize (IH m1).
    destruct (traverseChildren cs m1) as [cs' m2]. cbn [fst] in *.
    destruct Hc as [Hc1 Hc2], IH as [IH1 IH2].
    cbn [forallb map]. rewrite Hc1, IH1, Hc2, IH2. split; reflexivity.
Qed.

(** X17. After the traversal every mesh of the model casts and receives
    shadows, and nothing else about the graph has changed: the objects,
    their materials, their children and the flags of the objects that are
    not meshes are as before. *)
Theorem traverse_shadows (o : Object3D) (materials : Materials) :
  everyObject meshShadows (fst (traverse o materials)) = true /\
  shape (fst (traverse o materials)) = shape o.
Proof.
  revert materials.
  induction o as [mesh cast receive mat cs IH] using Object3D_tree_ind.
  intros materials. rewrite traverse_node. cbn [fst].
  destruct (traverseChildren_graph cs IH (visitMaterials mesh mat materials)) as [H1 H2].
  split.
  - cbn [everyObject]. rewrite H1.
    unfold meshShadows. cbn. destruct mesh; reflexivity.
  - cbn [shape]. rewrite H2. destruct mesh; reflexivity.
Qed.

End LoadedModel.

(** Two meshes under a group sharing the metallic material 0, and a mesh
    without material. *)
Lemma traverse_metalness_capped_witness :
  let model :=
    Gltf.mkObject3D false false false None
      [Gltf.mkObject3D true false false (Some 0%nat) [];
       Gltf.mkObject3D true false false (Some 0%nat) [Gltf.mkObject3D true false false None []]] in
  let materials : Gltf.Materials := fun _ => Gltf.mkMaterial 0.5 1 0.1 in
  Gltf.envMapIntensity (snd (Gltf.traverse model materials) 0%nat) = 1 /\
  Gltf.metalness (snd (Gltf.traverse model materials) 0%nat) <= 0.8.
Proof.
  intros model materials.
  destruct (traverse_metalness_capped model materials 0%nat eq_refl) as (H1 & H2 & _).
  split; assumption.
Defined.

(** ** The day branch of the lighting *)

Lemma asin_sixth : 0 < asin (1 / 6) < PI / 2 /\ sin (asin (1 / 6)) = 1 / 6.
Proof.
  assert (Hs : sin (asin (1 / 6)) = 1 / 6) by (apply sin_asin; lra).
  destruct (asin_bound_lt (1 / 6)) as [Hlo Hhi]; [lra|].
  pose proof PI_RGT_0 as Hpi.
  repeat split; try assumption.
  destruct (Rlt_le_dec 0 (asin (1 / 6))) as [|Hneg]; [assumption|].
  assert (sin (asin (1 / 6)) <= sin 0) by (apply sin_incr_1; lra).
  rewrite sin_0 in *. lra.
Qed.

(** X18. The floor of the directional intensity in terms of the altitude:
    from the horizon up to the altitude asin(1/6), about 9.6 degrees, the
    update effect writes the floor 0.5 on stored handles; from there up to
    PI/2 it writes three times the sine of the altitude, which is at least
    0.5. *)
Theorem sunEffect_floor_region :
  0 < asin (1 / 6) < PI / 2 /\
  (forall (p : SunPos.t) sm dl hl,
     0 < SunPos.altitude p <= asin (1 / 6) ->
     exists i,
       lightingAfter p sm dl hl = Some i /\ directionalIntensity i = 0.5) /\
  (forall (p : SunPos.t) sm dl hl,
     asin (1 / 6) <= SunPos.altitude p <= PI / 2 ->
     exists i,
       lightingAfter p sm dl hl = Some i /\
       directionalIntensity i = 3 * sin (SunPos.altitude p) /\
       0.5 <= directionalIntensity i).
Proof.
  destruct asin_sixth as [[Hlo Hhi] Hs]. pose proof PI_RGT_0 as Hpi.
  split; [split; assumption|]. split.
  - intros p sm dl hl [H0 H1]. eexists. rewrite lightingAfter_policy. split; [reflexivity|].
    rewrite directionalIntensity_day by assumption.
    assert (sin (SunPos.altitude p) <= sin (asin (1 / 6))) by (apply sin_incr_1; lra).
    apply Rmax_left. lra.
  - intros p sm dl hl [H0 H1]. eexists. rewrite lightingAfter_policy. split; [reflexivity|].
    rewrite directionalIntensity_day by lra.
    assert (sin (asin (1 / 6)) <= sin (SunPos.altitude p)) by (apply sin_incr_1; lra).
    rewrite Rmax_right by lra. split; lra.
Qed.

Lemma sunEffect_floor_region_witness :
  let sm := Three.mkMesh (Three.mkVector3 0 0 0) true in
  let dl := Three.mkDirectionalLight (Three.mkVector3 0 1 0) 30.0 in
  let hl := Three.mkHemisphereLight 0.6 0xffffff 0x444444 in
  exists i,
    lightingAfter (fst (getSunPosition echoAngles tt (PI / 2) 0 tt)) sm dl hl = Some i /\
    directionalIntensity i = 3 * sin (PI / 2).
Proof.
  intros sm dl hl.
  destruct sunEffect_floor_region as ([_ Hhi] & _ & Hlin).
  destruct (Hlin (fst (getSunPosition echoAngles tt (PI / 2) 0 tt)) sm dl hl) as (i & E & Hi & _).
  - cbn. split; [lra | apply Rle_refl].
  - exists i. split; [exact E | exact Hi].
Defined.

(** X19. The ambient intensity the update effect writes on stored handles:
    0.05 at or below the horizon; between 0.4 and 0.8 for an altitude in
    (0, PI]; not going down when the altitude goes up within (0, PI/2]; and
    0.8 at PI/2.  So it steps up by at least 0.35 at sunrise. *)
Theorem sunEffect_ambient_range :
  (forall (p : SunPos.t) sm dl hl,
     SunPos.altitude p <= 0 ->
     exists i, lightingAfter p sm dl hl = Some i /\ ambientIntensity i = 0.05) /\
  (forall (p : SunPos.t) sm dl hl,
     0 < SunPos.altitude p <= PI ->
     exists i, lightingAfter p sm dl hl = Some i /\ 0.4 <= ambientIntensity i <= 0.8) /\
  (forall (p1 p2 : SunPos.t) sm1 dl1 hl1 sm2 dl2 hl2,
     0 < SunPos.altitude p1 ->
     SunPos.altitude p1 <= SunPos.altitude p2 ->
     SunPos.altitude p2 <= PI / 2 ->
     exists i1 i2,
       lightingAfter p1 sm1 dl1 hl1 = Some i1 /\
       lightingAfter p2 sm2 dl2 hl2 = Some i2 /\
       ambientIntensity i1 <= ambientIntensity i2) /\
  (forall (p : SunPos.t) sm dl hl,
     SunPos.altitude p = PI / 2 ->
     exists i, lightingAfter p sm dl hl = Some i /\ ambientIntensity i = 0.8).
Proof.
  pose proof PI_RGT_0 as Hpi.
  split; [|split; [|split]].
  - intros p sm dl hl H. eexists. rewrite lightingAfter_policy. split; [reflexivity|].
    now rewrite (deriveIllumination_night _ H).
  - intros p sm dl hl [H0 H1]. eexists. rewrite lightingAfter_policy. split; [reflexivity|].
    rewrite ambientIntensity_day by assumption.
    pose proof (sin_ge_0 (SunPos.altitude p)). pose proof (SIN_bound (SunPos.altitude p)). lra.
  - intros p1 p2 sm1 dl1 hl1 sm2 dl2 hl2 Ha Hab Hb.
    do 2 eexists. rewrite !lightingAfter_policy. split; [reflexivity|]. split; [reflexivity|].
    rewrite !ambientIntensity_day by lra.
    assert (sin (SunPos.altitude p1) <= sin (SunPos.altitude p2)) by (apply sin_incr_1; lra).
    lra.
  - intros p sm dl hl Ha. eexists. rewrite lightingAfter_policy. split; [reflexivity|].
    rewrite Ha, ambientIntensity_day by lra. rewrite sin_PI2. lra.
Qed.

Lemma sunEffect_ambient_range_witness :
  let sm := Three.mkMesh (Three.mkVector3 0 0 0) true in
  let dl := Three.mkDirectionalLight (Three.mkVector3 0 1 0) 30.0 in
  let hl := Three.mkHemisphereLight 0.6 0xffffff 0x444444 in
  (exists i,
     lightingAfter (fst (getSunPosition echoAngles tt (-1) 0 tt)) sm dl hl = Some i /\
     ambientIntensity i = 0.05) /\
  (exists i,
     lightingAfter (fst (getSunPosition echoAngles tt 1 0 tt)) sm dl hl = Some i /\
     0.4 <= ambientIntensity i <= 0.8).
Proof.
  intros sm dl hl.
  destruct sunEffect_ambient_range as (Hnight & Hday & _).
  split.
  - apply Hnight. cbn. lra.
  - apply Hday. cbn. pose proof one_lt_PI. lra.
Defined.

Lemma sunEffect_directional_range_witness :
  let sm := Three.mkMesh (Three.mkVector3 0 0 0) true in
  let dl := Three.mkDirectionalLight (Three.mkVector3 0 1 0) 30.0 in
  let hl := Three.mkHemisphereLight 0.6 0xffffff 0x444444 in
  exists i,
    lightingAfter (fst (getSunPosition echoAngles tt 1 0 tt)) sm dl hl = Some i /\
    0.5 <= directionalIntensity i <= 3.0.
Proof.
  intros sm dl hl.
  destruct sunEffect_directional_range as (_ & Hrange & _).
  apply Hrange. cbn. lra.
Defined.
